(** * Theme store, class-name joiner and runtime type guards

    A shallow embedding of the three source files of the template:

    - the theme store ([createThemeStore], [updateClass], [update], [set],
      [toggle], [subscribe]) built on [svelte/store]'s [writable];
    - [classNames] / [cx] from [src/utils/class.util.ts];
    - the type guards [isNumber], [isObject], [isArray], ... of the type
      utility module.

    Effects are explicit.  The document's [classList] is a token list that is
    threaded through every computation, and every computation emits the list
    of events it performed (DOM reads and writes, the assignment of the
    store's value, the invocation of a subscriber), in program order. *)

From Stdlib Require Import List String Ascii Bool Arith Lia ZArith.
From Stdlib Require Import Floats.SpecFloat.
Import ListNotations.
Local Set Warnings "-register-all".
Local Open Scope string_scope.
Local Open Scope list_scope.

(* ================================================================== *)
(** ** The [Theme] enum *)

(** [export enum Theme { LIGHT = "light", DARK = "dark" }]: a string enum.
    [Theme_value] is the runtime string of a member; comparisons in the
    source ([theme == "dark"], [theme === Theme.DARK]) are comparisons of
    these strings. *)
Inductive Theme : Type :=
| LIGHT
| DARK.

Definition Theme_value (t : Theme) : string :=
  match t with
  | LIGHT => "light"
  | DARK => "dark"
  end.

(** JavaScript [===] on two strings. *)
Definition strict_eq (a b : string) : bool := String.eqb a b.

(* ================================================================== *)
(** ** The document's class list *)

Module DOM.

(** [document.documentElement.classList], a [DOMTokenList]: the tokens of
    the [class] attribute, in order. *)
Definition DOMTokenList := list string.

(** [classList.contains(token)]. *)
Definition contains (token : string) (l : DOMTokenList) : bool :=
  existsb (String.eqb token) l.

(** [classList.add(token)]: appends the token unless it is there. *)
Definition add (token : string) (l : DOMTokenList) : DOMTokenList :=
  if contains token l then l else l ++ [token].

(** [classList.remove(token)]: drops the token. *)
Definition remove (token : string) (l : DOMTokenList) : DOMTokenList :=
  filter (fun t => negb (String.eqb token t)) l.

End DOM.

(* ================================================================== *)
(** ** Events and the effect monad *)

(** A subscriber callback is known by an identifier.  Invoking it is
    recorded as a [Run] event, together with the value it is handed and the
    class list it can read from the document at that time.  In the
    computations of this part a callback only observes; [Reentrant], further
    down, gives callbacks a behaviour (calls on the store, exceptions). *)
Definition Callback := nat.

Inductive Event : Type :=
| DomContains (token : string) (result : bool)
| DomAdd (token : string)
| DomRemove (token : string)
| StoreAssign (v : Theme)
| Run (key : nat) (cb : Callback) (v : Theme) (seen : DOM.DOMTokenList).

(** A computation reads and changes the class list and emits its events. *)
Definition IO (A : Type) : Type :=
  DOM.DOMTokenList -> A * DOM.DOMTokenList * list Event.

Definition ret {A} (a : A) : IO A := fun cl => (a, cl, []).

Definition bind {A B} (m : IO A) (f : A -> IO B) : IO B :=
  fun cl =>
    let '(a, cl1, e1) := m cl in
    let '(b, cl2, e2) := f a cl1 in
    (b, cl2, e1 ++ e2).

Notation "x <- m ;; k" := (bind m (fun x => k))
  (at level 61, m at next level, right associativity).
Notation "m ;; k" := (bind m (fun _ => k))
  (at level 61, right associativity).

Definition classList_contains (token : string) : IO bool :=
  fun cl => (DOM.contains token cl, cl, [DomContains token (DOM.contains token cl)]).

Definition classList_add (token : string) : IO unit :=
  fun cl => (tt, DOM.add token cl, [DomAdd token]).

Definition classList_remove (token : string) : IO unit :=
  fun cl => (tt, DOM.remove token cl, [DomRemove token]).

Definition assign (v : Theme) : IO unit :=
  fun cl => (tt, cl, [StoreAssign v]).

Definition invoke (key : nat) (cb : Callback) (v : Theme) : IO unit :=
  fun cl => (tt, cl, [Run key cb v cl]).

(* ================================================================== *)
(** ** [svelte/store]'s [writable], at type [Theme] *)

(** [svelte/store] is a dependency of the template, not a file of it.  The
    definitions of this module follow the library's implementation of
    [writable(value, start = noop)]:

<<
  function set(new_value) {
    if (safe_not_equal(value, new_value)) {
      value = new_value;
      if (stop) {
        const run_queue = !subscriber_queue.length;
        for (const subscriber of subscribers) {
          subscriber[1]();
          subscriber_queue.push(subscriber, value);
        }
        if (run_queue) {
          for (let i = 0; i < subscriber_queue.length; i += 2)
            subscriber_queue[i][0](subscriber_queue[i + 1]);
          subscriber_queue.length = 0;
        }
      }
    }
  }
  function update(fn) { set(fn(value)); }
  function subscribe(run, invalidate = noop) {
    const subscriber = [run, invalidate];
    subscribers.add(subscriber);
    if (subscribers.size === 1) stop = start(set, update) || noop;
    run(value);
    return () => {
      subscribers.delete(subscriber);
      if (subscribers.size === 0 && stop) { stop(); stop = null; }
    };
  }
>>

    In this module callbacks are observers: they do not call back into the
    store and do not throw, so the shared [subscriber_queue] is empty
    whenever [set] is entered and the loop can be run at once.  [Reentrant]
    has the queue and callbacks of any behaviour; [call_all_passive] shows
    that it does what this module does when callbacks only observe. *)
Module Svelte.

(** A registration made by [subscribe]: svelte allocates a fresh
    [subscriber] record per call, so the same callback subscribed twice is
    two registrations.  [sub_key] stands for the identity of that record.
    The second component of svelte's record, [invalidate], defaults to a
    no-op and is not represented. *)
Record Subscriber : Type := mkSubscriber {
  sub_key : nat;
  sub_run : Callback
}.

(** The closure state of one [writable]: [value], the [subscribers] set in
    insertion order, and [stop], which is set while the store has
    subscribers.  [next_key] is the allocator of registration identities. *)
Record Writable : Type := mkWritable {
  value : Theme;
  subscribers : list Subscriber;
  stop : bool;
  next_key : nat
}.

(** [safe_not_equal(a, b)] on two strings is [a !== b]. *)
Definition safe_not_equal (a b : Theme) : bool :=
  negb (strict_eq (Theme_value a) (Theme_value b)).

(** [writable(value)]: no subscriber yet, not started. *)
Definition writable (v : Theme) : Writable :=
  {| value := v; subscribers := []; stop := false; next_key := 0 |}.

(** The loop over [subscriber_queue]: each queued [run] is called with the
    queued value. *)
Fixpoint run_queue (q : list (Subscriber * Theme)) : IO unit :=
  match q with
  | [] => ret tt
  | (s, v) :: q' => invoke (sub_key s) (sub_run s) v ;; run_queue q'
  end.

(** [set(new_value)]: nothing happens when the value is unchanged;
    otherwise the value is assigned and, when the store is started, every
    subscriber is queued with the new value and the queue is run. *)
Definition set (new_value : Theme) (w : Writable) : IO Writable :=
  if safe_not_equal (value w) new_value then
    assign new_value ;;
    let w' := {| value := new_value; subscribers := subscribers w;
                 stop := stop w; next_key := next_key w |} in
    if stop w' then
      run_queue (map (fun s => (s, new_value)) (subscribers w')) ;;
      ret w'
    else ret w'
  else ret w.

(** [update(fn)] is [set(fn(value))]; [fn] may have effects. *)
Definition update (fn : Theme -> IO Theme) (w : Writable) : IO Writable :=
  v <- fn (value w) ;;
  set v w.

(** [subscribe(run)]: registers the subscriber, starts the store when it is
    the first one, calls [run(value)], and returns the unsubscriber, which
    is represented by the key of the registration. *)
Definition subscribe (run : Callback) (w : Writable) : IO (Writable * nat) :=
  let s := {| sub_key := next_key w; sub_run := run |} in
  let subs := subscribers w ++ [s] in
  let w' := {| value := value w; subscribers := subs;
               stop := if Nat.eqb (List.length subs) 1 then true else stop w;
               next_key := S (next_key w) |} in
  invoke (sub_key s) run (value w') ;;
  ret (w', sub_key s).

(** The function returned by [subscribe]: deletes the registration, and
    stops the store when it was the last one. *)
Definition unsubscribe (key : nat) (w : Writable) : Writable :=
  let subs := filter (fun s => negb (Nat.eqb (sub_key s) key)) (subscribers w) in
  {| value := value w; subscribers := subs;
     stop := if Nat.eqb (List.length subs) 0 && stop w then false else stop w;
     next_key := next_key w |}.

End Svelte.

(* ================================================================== *)
(** ** The theme store *)

Module ThemeStore.

(** [updateClass(theme)]. *)
Definition updateClass (theme : Theme) : IO unit :=
  if strict_eq (Theme_value theme) "dark" then
    present <- classList_contains (Theme_value DARK) ;;
    if negb present then classList_add (Theme_value DARK) else ret tt
  else
    present <- classList_contains (Theme_value DARK) ;;
    if present then classList_remove (Theme_value DARK) else ret tt.

(** [createThemeStore()]: the store's state is the [writable] it creates. *)
Definition createThemeStore : IO Svelte.Writable :=
  present <- classList_contains (Theme_value DARK) ;;
  ret (Svelte.writable (if present then DARK else LIGHT)).

(** [update(updater)]. *)
Definition update (updater : Theme -> Theme) (w : Svelte.Writable)
  : IO Svelte.Writable :=
  Svelte.update
    (fun theme =>
       let newTheme := updater theme in
       updateClass newTheme ;;
       ret newTheme)
    w.

(** [set(newTheme)]. *)
Definition set (newTheme : Theme) (w : Svelte.Writable) : IO Svelte.Writable :=
  updateClass newTheme ;;
  Svelte.set newTheme w.

(** [toggle()]. *)
Definition toggle (w : Svelte.Writable) : IO Svelte.Writable :=
  update
    (fun theme =>
       if strict_eq (Theme_value theme) (Theme_value DARK) then LIGHT else DARK)
    w.

(** [subscribe: theme.subscribe]. *)
Definition subscribe := Svelte.subscribe.

End ThemeStore.

(* ================================================================== *)
(** ** Calls on the store, and sequences of them *)

(** The three operations that change the theme. *)
Inductive Mutation : Type :=
| MSet (newTheme : Theme)
| MUpdate (updater : Theme -> Theme)
| MToggle.

(** Any call on the store's public surface; [CUnsubscribe key] is a call of
    the function that [subscribe] returned for the registration [key]. *)
Inductive Call : Type :=
| CMutate (m : Mutation)
| CSubscribe (cb : Callback)
| CUnsubscribe (key : nat).

Definition perform (m : Mutation) (w : Svelte.Writable) : IO Svelte.Writable :=
  match m with
  | MSet newTheme => ThemeStore.set newTheme w
  | MUpdate updater => ThemeStore.update updater w
  | MToggle => ThemeStore.toggle w
  end.

Definition exec (c : Call) (w : Svelte.Writable) : IO Svelte.Writable :=
  match c with
  | CMutate m => perform m w
  | CSubscribe cb => r <- ThemeStore.subscribe cb w ;; ret (fst r)
  | CUnsubscribe key => ret (Svelte.unsubscribe key w)
  end.

Fixpoint exec_all (cs : list Call) (w : Svelte.Writable) : IO Svelte.Writable :=
  match cs with
  | [] => ret w
  | c :: cs' => w' <- exec c w ;; exec_all cs' w'
  end.

(** Projections of the outcome of a computation. *)
Definition result {A} (o : A * DOM.DOMTokenList * list Event) : A := fst (fst o).
Definition classes {A} (o : A * DOM.DOMTokenList * list Event) : DOM.DOMTokenList :=
  snd (fst o).
Definition events {A} (o : A * DOM.DOMTokenList * list Event) : list Event := snd o.

(** The dark marker: the [dark] class on the document root. *)
Definition marker (cl : DOM.DOMTokenList) : bool :=
  DOM.contains (Theme_value DARK) cl.

(** Classification of events. *)
Definition is_dom (e : Event) : bool :=
  match e with
  | DomContains _ _ | DomAdd _ | DomRemove _ => true
  | _ => false
  end.

Definition is_dom_write (e : Event) : bool :=
  match e with
  | DomAdd _ | DomRemove _ => true
  | _ => false
  end.

Definition is_store (e : Event) : bool :=
  match e with
  | StoreAssign _ | Run _ _ _ _ => true
  | _ => false
  end.

(** The notifications of a trace: who was called, with which value. *)
Fixpoint notifications (es : list Event) : list (nat * Callback * Theme) :=
  match es with
  | [] => []
  | Run key cb v _ :: es' => (key, cb, v) :: notifications es'
  | _ :: es' => notifications es'
  end.

(** The values delivered to the registration [key], in order. *)
Fixpoint deliveries (key : nat) (es : list Event) : list Theme :=
  match es with
  | [] => []
  | Run k _ v _ :: es' =>
      if Nat.eqb k key then v :: deliveries key es' else deliveries key es'
  | _ :: es' => deliveries key es'
  end.

(** The notification of every subscriber of [w] with [v]. *)
Definition notify_all (w : Svelte.Writable) (v : Theme) : list (nat * Callback * Theme) :=
  map (fun s => (Svelte.sub_key s, Svelte.sub_run s, v)) (Svelte.subscribers w).

(** What a mutation asks for, as a function on themes. *)
Definition target (m : Mutation) (current : Theme) : Theme :=
  match m with
  | MSet newTheme => newTheme
  | MUpdate updater => updater current
  | MToggle => match current with DARK => LIGHT | LIGHT => DARK end
  end.

(** The successive state changes of a run of mutations from [current]: the
    new value each time it differs from the one before. *)
Fixpoint changes (current : Theme) (ms : list Mutation) : list Theme :=
  match ms with
  | [] => []
  | m :: ms' =>
      let v := target m current in
      if Svelte.safe_not_equal current v then v :: changes v ms' else changes v ms'
  end.

(** States of the [writable] that calls can reach: registration keys are
    distinct and already allocated, and the store is started exactly while it
    has subscribers. *)
Definition well_formed (w : Svelte.Writable) : Prop :=
  NoDup (map Svelte.sub_key (Svelte.subscribers w))
  /\ Forall (fun s => Svelte.sub_key s < Svelte.next_key w) (Svelte.subscribers w)
  /\ (Svelte.stop w = true <-> Svelte.subscribers w <> []).

Definition registered (key : nat) (w : Svelte.Writable) : Prop :=
  In key (map Svelte.sub_key (Svelte.subscribers w)).

(* ================================================================== *)
(** ** JavaScript values and the type guards *)

Module JS.

(** Runtime values.  A number is an IEEE 754 value ([spec_float] has the
    zeros, the infinities, NaN and the finite values); arrays, functions
    and other objects are the kinds of object the guards tell apart.  An
    array is the list of its slots up to its length, a slot being an
    element or a hole ([None]): [[ , 1]] and [new Array(3)] have holes.
    [VDocumentAll] is the browser's [document.all], the one object with the
    [[IsHTMLDDA]] slot: its [typeof] is ["undefined"] although it is not
    [=== undefined]. *)
Inductive Value : Type :=
| VUndefined
| VNull
| VBoolean (b : bool)
| VNumber (x : spec_float)
| VBigInt (z : Z)
| VString (s : string)
| VSymbol (description : string)
| VObject (properties : list (string * Value))
| VArray (slots : list (option Value))
| VFunction (name : string)
| VDocumentAll.

(** The [typeof] operator. *)
Definition typeof (v : Value) : string :=
  match v with
  | VUndefined => "undefined"
  | VNull => "object"
  | VBoolean _ => "boolean"
  | VNumber _ => "number"
  | VBigInt _ => "bigint"
  | VString _ => "string"
  | VSymbol _ => "symbol"
  | VObject _ => "object"
  | VArray _ => "object"
  | VFunction _ => "function"
  | VDocumentAll => "undefined"
  end.

(** [Number.isNaN(v)]: false unless [v] is a number, then whether it is
    NaN. *)
Definition Number_isNaN (v : Value) : bool :=
  match v with
  | VNumber S754_nan => true
  | _ => false
  end.

(** [Array.isArray(v)]. *)
Definition Array_isArray (v : Value) : bool :=
  match v with
  | VArray _ => true
  | _ => false
  end.


Definition is_null (v : Value) : bool :=
  match v with VNull => true | _ => false end.

(** [Boolean(v)], the ToBoolean conversion. *)
Definition Boolean (v : Value) : bool :=
  match v with
  | VUndefined | VNull => false
  | VBoolean b => b
  | VNumber (S754_zero _) | VNumber S754_nan => false
  | VNumber _ => true
  | VBigInt z => negb (Z.eqb z 0)
  | VString s => negb (String.eqb s "")
  | VSymbol _ | VObject _ | VArray _ | VFunction _ => true
  | VDocumentAll => false
  end.

(** [Array.prototype.every(callbackfn)] on the slots of an array: the
    callback is called on the elements that are present, holes are
    skipped. *)
Definition every (callbackfn : Value -> bool) (slots : list (option Value)) : bool :=
  forallb (fun slot =>
             match slot with
             | Some element => callbackfn element
             | None => true
             end)
          slots.

(** Reading the index [k] of an array: the element, or [undefined] for a
    hole and beyond the length. *)
Definition get_index (slots : list (option Value)) (k : nat) : Value :=
  match nth_error slots k with
  | Some (Some element) => element
  | _ => VUndefined
  end.

End JS.

Module TypeGuards.
Import JS.



Definition isNumber (value : Value) : bool :=
  strict_eq (typeof value) "number" && negb (Number_isNaN value).

Definition isString (value : Value) : bool :=
  strict_eq (typeof value) "string".

Definition isObject (value : Value) : bool :=
  strict_eq (typeof value) "object" && negb (Array_isArray value)
  && negb (is_null value).


Definition isEmptyString (value : Value) : bool :=
  isString value
  && match value with
     | VString s => Nat.eqb (String.length s) 0
     | _ => false
     end.

Definition isArray (value : Value) : bool := Array_isArray value.

Definition isArrayOfType (value : Value) (isType : Value -> bool) : bool :=
  isArray value
  && match value with
     | VArray slots => every (fun element => isType element) slots
     | _ => false
     end.

End TypeGuards.

(* ================================================================== *)
(** ** [classNames] *)

Module ClassUtil.

(** An argument of [classNames]: [string | false | null | undefined]. *)
Inductive ClassValue : Type :=
| CString (s : string)
| CFalse
| CNull
| CUndefined.

Definition to_value (c : ClassValue) : JS.Value :=
  match c with
  | CString s => JS.VString s
  | CFalse => JS.VBoolean false
  | CNull => JS.VNull
  | CUndefined => JS.VUndefined
  end.

(** The string [join] uses for an element: empty for [undefined] and
    [null], ToString otherwise. *)
Definition element_string (c : ClassValue) : string :=
  match c with
  | CString s => s
  | CFalse => "false"
  | CNull | CUndefined => ""
  end.

(** [Array.prototype.join(separator)]: the loop over the indices [k], with
    the separator put before every element but the first.  [join_step] is
    the body of the loop, on the index [k] and the result [R] so far. *)
Definition join_step (separator : string) (st : nat * string)
           (element : ClassValue) : nat * string :=
  let '(k, R) := st in
  (S k, String.append
          (if Nat.ltb 0 k then String.append R separator else R)
          (element_string element)).

Definition join (separator : string) (a : list ClassValue) : string :=
  snd (fold_left (join_step separator) a (0, "")).

(** [classes.filter(Boolean).join(" ")]. *)
Definition classNames (classes : list ClassValue) : string :=
  join " " (filter (fun c => JS.Boolean (to_value c)) classes).

(** [export const cx = classNames]. *)
Definition cx := classNames.

(** The truthy arguments, as strings, in their order. *)
Fixpoint truthy_strings (classes : list ClassValue) : list string :=
  match classes with
  | [] => []
  | CString s :: rest =>
      if String.eqb s "" then truthy_strings rest else s :: truthy_strings rest
  | _ :: rest => truthy_strings rest
  end.

Definition falsy (c : ClassValue) : bool :=
  match c with
  | CString s => String.eqb s ""
  | _ => true
  end.

End ClassUtil.

(* ================================================================== *)
(** ** Reference behaviour of the marker synchronisation *)

(** Whether a theme is the dark one. *)
Definition is_dark (t : Theme) : bool :=
  match t with
  | DARK => true
  | LIGHT => false
  end.

(** The class list after synchronising the marker with [t]: the marker is
    added if [t] is dark and it is absent, removed if [t] is light and it is
    present, and the list is left alone otherwise. *)
Definition sync (t : Theme) (cl : DOM.DOMTokenList) : DOM.DOMTokenList :=
  match t, marker cl with
  | DARK, false => DOM.add "dark" cl
  | LIGHT, true => DOM.remove "dark" cl
  | _, _ => cl
  end.

(** The writes to the document that this synchronisation takes. *)
Definition sync_writes (t : Theme) (cl : DOM.DOMTokenList) : list Event :=
  match t, marker cl with
  | DARK, false => [DomAdd "dark"]
  | LIGHT, true => [DomRemove "dark"]
  | _, _ => []
  end.

(** [toggle] as the specification words it: [update] with the function
    that maps dark to light and light to dark. *)
Definition toggle_spec (w : Svelte.Writable) : IO Svelte.Writable :=
  ThemeStore.update (fun theme => match theme with DARK => LIGHT | LIGHT => DARK end) w.

(** The mutations among a sequence of calls. *)
Fixpoint mutations_of (cs : list Call) : list Mutation :=
  match cs with
  | [] => []
  | CMutate m :: cs' => m :: mutations_of cs'
  | _ :: cs' => mutations_of cs'
  end.

(** A call that leaves the registration [key] in place. *)
Definition keeps (key : nat) (c : Call) : bool :=
  match c with
  | CUnsubscribe k => negb (Nat.eqb k key)
  | _ => true
  end.

(** The store [w] with its value replaced. *)
Definition with_value (v : Theme) (w : Svelte.Writable) : Svelte.Writable :=
  {| Svelte.value := v; Svelte.subscribers := Svelte.subscribers w;
     Svelte.stop := Svelte.stop w; Svelte.next_key := Svelte.next_key w |}.

(** The events of [writable]'s [set] when the document shows [cl]. *)
Definition store_events (w : Svelte.Writable) (v : Theme) (cl : DOM.DOMTokenList)
  : list Event :=
  if Svelte.safe_not_equal (Svelte.value w) v then
    StoreAssign v
      :: (if Svelte.stop w then
            map (fun s => Run (Svelte.sub_key s) (Svelte.sub_run s) v cl)
                (Svelte.subscribers w)
          else [])
  else [].

(** The marker and the store agree: the marker is present exactly when the
    current theme is the dark one. *)
Definition in_sync (w : Svelte.Writable) (cl : DOM.DOMTokenList) : Prop :=
  marker cl = true <-> Svelte.value w = DARK.

(** The class list after the DOM writes of a trace. *)
Fixpoint replay (es : list Event) (cl : DOM.DOMTokenList) : DOM.DOMTokenList :=
  match es with
  | [] => cl
  | DomAdd token :: es' => replay es' (DOM.add token cl)
  | DomRemove token :: es' => replay es' (DOM.remove token cl)
  | _ :: es' => replay es' cl
  end.

(** A notification that hands over [v] while the document shows [cl]. *)
Definition delivers (v : Theme) (cl : DOM.DOMTokenList) (e : Event) : Prop :=
  match e with
  | Run _ _ v' seen => v' = v /\ seen = cl
  | _ => True
  end.

(** The strings of a list, each one after a separator. *)
Fixpoint prefixed (separator : string) (l : list string) : string :=
  match l with
  | [] => ""
  | x :: xs => String.append separator (String.append x (prefixed separator xs))
  end.

(** The values handed to the callback [cb], through whichever registration,
    in order. *)
Fixpoint calls_of (cb : Callback) (es : list Event) : list Theme :=
  match es with
  | [] => []
  | Run _ c v _ :: es' =>
      if Nat.eqb c cb then v :: calls_of cb es' else calls_of cb es'
  | _ :: es' => calls_of cb es'
  end.

(** A call that does not subscribe the callback [cb]. *)
Definition avoids (cb : Callback) (c : Call) : bool :=
  match c with
  | CSubscribe cb' => negb (Nat.eqb cb' cb)
  | _ => true
  end.

(** The callback [cb] has no registration in [w]. *)
Definition fresh_callback (cb : Callback) (w : Svelte.Writable) : Prop :=
  ~ In cb (map Svelte.sub_run (Svelte.subscribers w)).

(** The registrations of the callback [cb] in [w] are those with key [key]. *)
Definition sole_registration (key : nat) (cb : Callback) (w : Svelte.Writable) : Prop :=
  Forall (fun s => Nat.eqb (Svelte.sub_run s) cb = Nat.eqb (Svelte.sub_key s) key)
         (Svelte.subscribers w).

(** A store with one subscriber, used in the examples. *)
Definition one_subscriber (v : Theme) : Svelte.Writable :=
  {| Svelte.value := v;
     Svelte.subscribers := [ {| Svelte.sub_key := 0; Svelte.sub_run := 7 |} ];
     Svelte.stop := true;
     Svelte.next_key := 1 |}.

(* ================================================================== *)
(** ** Further reference notions *)

(** The classes of the document other than the dark one, in order. *)
Definition other_classes (cl : DOM.DOMTokenList) : DOM.DOMTokenList :=
  filter (fun t => negb (String.eqb "dark" t)) cl.

(** The theme after a run of mutations from [current]. *)
Definition final_theme (current : Theme) (ms : list Mutation) : Theme :=
  fold_left (fun v m => target m v) ms current.

(** A call of [subscribe] or of an unsubscriber. *)
Definition is_registration (c : Call) : bool :=
  match c with
  | CMutate _ => false
  | _ => true
  end.

(** The callbacks that a sequence of calls subscribes, in order. *)
Fixpoint subscribed (cs : list Call) : list Callback :=
  match cs with
  | [] => []
  | CSubscribe cb :: cs' => cb :: subscribed cs'
  | _ :: cs' => subscribed cs'
  end.

(** The invocations of callbacks in a trace. *)
Definition is_run (e : Event) : bool :=
  match e with
  | Run _ _ _ _ => true
  | _ => false
  end.

(** No value of [l] equals the one before it, [prev] being the one before
    the first. *)
Fixpoint no_repeat (prev : Theme) (l : list Theme) : bool :=
  match l with
  | [] => true
  | v :: l' => negb (Bool.eqb (is_dark prev) (is_dark v)) && no_repeat v l'
  end.

(** Two class strings put together: with one space between them when
    neither is empty. *)
Definition glue (a b : string) : string :=
  if String.eqb a "" then b
  else if String.eqb b "" then a
  else String.append a (String.append " " b).



(* ================================================================== *)
(** ** Subscribers that call back into the store *)

(** Above, a subscriber callback only observes.  Here a callback has a
    behaviour: handed a theme, it makes calls on the store ([set],
    [update], [toggle], [subscribe], an unsubscriber) or throws.  The store
    then runs as svelte runs it, with the [subscriber_queue] that all calls
    of [set] share: a [set] entered while the queue is not empty only
    appends to it, the loop that is running delivers the entries, and an
    exception leaves the queue as it is.  Execution is a machine on a stack
    of tasks, one step per unit of fuel. *)
Module Reentrant.

(** A call on the store made from a callback or from outside, or a
    [throw]. *)
Inductive Action : Type :=
| ASet (newTheme : Theme)
| AUpdate (updater : Theme -> Theme)
| AToggle
| ASubscribe (cb : Callback)
| AUnsubscribe (key : nat)
| AThrow.

(** What each callback does when it is handed a theme. *)
Definition Behaviour := Callback -> Theme -> list Action.

(** What remains to be done: a call, the invocation [run(v)] of a
    subscriber, or the rest of the [for] loop of [set] from the queue entry
    [i] on. *)
Inductive Task : Type :=
| TDo (a : Action)
| TRun (s : Svelte.Subscriber) (v : Theme)
| TLoop (i : nat).

Record Machine : Type := mkMachine {
  store : Svelte.Writable;
  subscriber_queue : list (Svelte.Subscriber * Theme);
  document : DOM.DOMTokenList
}.

Inductive Ending : Type :=
| Returned
| Threw
| OutOfFuel.

(** [writable]'s [set(new_value)]: the new machine, the loop to run if this
    call is the one that found the queue empty, and the events. *)
Definition writable_set (new_value : Theme) (m : Machine)
  : Machine * list Task * list Event :=
  let w := store m in
  if Svelte.safe_not_equal (Svelte.value w) new_value then
    let w' := {| Svelte.value := new_value;
                 Svelte.subscribers := Svelte.subscribers w;
                 Svelte.stop := Svelte.stop w;
                 Svelte.next_key := Svelte.next_key w |} in
    if Svelte.stop w' then
      let run_queue := match subscriber_queue m with [] => true | _ => false end in
      ({| store := w';
          subscriber_queue :=
            subscriber_queue m ++ map (fun s => (s, new_value)) (Svelte.subscribers w');
          document := document m |},
       if run_queue then [TLoop 0] else [],
       [StoreAssign new_value])
    else
      ({| store := w'; subscriber_queue := subscriber_queue m;
          document := document m |},
       [], [StoreAssign new_value])
  else (m, [], []).

(** The common course of the theme store's [set(newTheme)] and
    [update(updater)]: [updateClass(newTheme)], then [writable]'s [set]. *)
Definition mutate (newTheme : Theme) (m : Machine)
  : Machine * list Task * list Event :=
  let '(_, cl, es1) := ThemeStore.updateClass newTheme (document m) in
  let '(m', more, es2) :=
    writable_set newTheme
      {| store := store m; subscriber_queue := subscriber_queue m; document := cl |} in
  (m', more, es1 ++ es2).

(** The events [es], then the outcome [o]. *)
Definition after (es : list Event) (o : Ending * Machine * list Event)
  : Ending * Machine * list Event :=
  let '(e, m, es') := o in (e, m, es ++ es').

Fixpoint steps (behaviour : Behaviour) (fuel : nat) (todo : list Task) (m : Machine)
  : Ending * Machine * list Event :=
  match todo with
  | [] => (Returned, m, [])
  | t :: rest =>
      match fuel with
      | 0 => (OutOfFuel, m, [])
      | S fuel' =>
          match t with
          | TDo (ASet newTheme) =>
              let '(m', more, es) := mutate newTheme m in
              after es (steps behaviour fuel' (more ++ rest) m')
          | TDo (AUpdate updater) =>
              let '(m', more, es) := mutate (updater (Svelte.value (store m))) m in
              after es (steps behaviour fuel' (more ++ rest) m')
          | TDo AToggle =>
              let '(m', more, es) :=
                mutate (if strict_eq (Theme_value (Svelte.value (store m)))
                                     (Theme_value DARK)
                        then LIGHT else DARK) m in
              after es (steps behaviour fuel' (more ++ rest) m')
          | TDo (ASubscribe cb) =>
              let w := store m in
              let s := {| Svelte.sub_key := Svelte.next_key w; Svelte.sub_run := cb |} in
              let subs := Svelte.subscribers w ++ [s] in
              let w' := {| Svelte.value := Svelte.value w;
                           Svelte.subscribers := subs;
                           Svelte.stop :=
                             if Nat.eqb (List.length subs) 1 then true
                             else Svelte.stop w;
                           Svelte.next_key := S (Svelte.next_key w) |} in
              steps behaviour fuel' (TRun s (Svelte.value w') :: rest)
                    {| store := w'; subscriber_queue := subscriber_queue m;
                       document := document m |}
          | TDo (AUnsubscribe key) =>
              steps behaviour fuel' rest
                    {| store := Svelte.unsubscribe key (store m);
                       subscriber_queue := subscriber_queue m;
                       document := document m |}
          | TDo AThrow => (Threw, m, [])
          | TRun s v =>
              after [Run (Svelte.sub_key s) (Svelte.sub_run s) v (document m)]
                    (steps behaviour fuel'
                           (map TDo (behaviour (Svelte.sub_run s) v) ++ rest) m)
          | TLoop i =>
              match nth_error (subscriber_queue m) i with
              | Some (s, v) =>
                  steps behaviour fuel' (TRun s v :: TLoop (S i) :: rest) m
              | None =>
                  steps behaviour fuel' rest
                        {| store := store m; subscriber_queue := [];
                           document := document m |}
              end
          end
      end
  end.

(** Projections of the outcome of a run. *)
Definition ending {A} (o : A * Machine * list Event) : A := fst (fst o).
Definition machine {A} (o : A * Machine * list Event) : Machine := snd (fst o).
Definition trace {A} (o : A * Machine * list Event) : list Event := snd o.

(** A call from outside. *)
Definition action_of (c : Call) : Action :=
  match c with
  | CMutate (MSet newTheme) => ASet newTheme
  | CMutate (MUpdate updater) => AUpdate updater
  | CMutate MToggle => AToggle
  | CSubscribe cb => ASubscribe cb
  | CUnsubscribe key => AUnsubscribe key
  end.

Definition call (behaviour : Behaviour) (fuel : nat) (c : Call) (m : Machine)
  : Ending * Machine * list Event :=
  steps behaviour fuel [TDo (action_of c)] m.

(** Calls from outside, one after the other; an exception ends the call
    that raised it, and the next call goes on from the machine it left. *)
Fixpoint call_all (behaviour : Behaviour) (fuel : nat) (cs : list Call) (m : Machine)
  : list Ending * Machine * list Event :=
  match cs with
  | [] => ([], m, [])
  | c :: cs' =>
      let '(e, m1, es1) := call behaviour fuel c m in
      let '(ends, m2, es2) := call_all behaviour fuel cs' m1 in
      (e :: ends, m2, es1 ++ es2)
  end.

(** The machine between calls: no notification under way. *)
Definition at_rest (w : Svelte.Writable) (cl : DOM.DOMTokenList) : Machine :=
  {| store := w; subscriber_queue := []; document := cl |}.

(** Callbacks that only observe. *)
Definition passive (behaviour : Behaviour) : Prop :=
  forall (cb : Callback) (v : Theme), behaviour cb v = [].

Definition observers : Behaviour := fun _ _ => [].

(** Fuel that suffices for a call, and for each of [n] calls, on a store
    with the subscribers of [w], when callbacks only observe. *)
Definition enough (w : Svelte.Writable) (n : nat) : nat :=
  2 * (List.length (Svelte.subscribers w) + n) + 4.

(** A store with the two subscribers 7 and 8. *)
Definition two_subscribers (v : Theme) : Svelte.Writable :=
  {| Svelte.value := v;
     Svelte.subscribers := [ {| Svelte.sub_key := 0; Svelte.sub_run := 7 |};
                             {| Svelte.sub_key := 1; Svelte.sub_run := 8 |} ];
     Svelte.stop := true;
     Svelte.next_key := 2 |}.

(** Subscriber 7 answers the dark theme by setting the light one. *)
Definition sets_light_on_dark : Behaviour :=
  fun cb v =>
    match cb, v with
    | 7, DARK => [ASet LIGHT]
    | _, _ => []
    end.

(** Subscriber 7 answers the dark theme by calling the unsubscriber of the
    registration 1. *)
Definition unsubscribes_other_on_dark : Behaviour :=
  fun cb v =>
    match cb, v with
    | 7, DARK => [AUnsubscribe 1]
    | _, _ => []
    end.

(** Subscriber 7 throws when it is handed the dark theme. *)
Definition throws_on_dark : Behaviour :=
  fun cb v =>
    match cb, v with
    | 7, DARK => [AThrow]
    | _, _ => []
    end.

(** A notification seen with the marker of the theme it hands over. *)
Definition sees_own_marker (e : Event) : Prop :=
  match e with
  | Run _ _ v seen => marker seen = is_dark v
  | _ => True
  end.

End Reentrant.

(* ================================================================== *)
(** * Properties *)

(** ** The class list *)

Lemma contains_add (token : string) (l : DOM.DOMTokenList) :
  DOM.contains token (DOM.add token l) = true.
Proof.
  unfold DOM.add. destruct (DOM.contains token l) eqn:E; [exact E|].
  unfold DOM.contains. rewrite existsb_app. simpl.
  rewrite String.eqb_refl. now rewrite !orb_true_r.
Qed.

Lemma contains_remove (token : string) (l : DOM.DOMTokenList) :
  DOM.contains token (DOM.remove token l) = false.
Proof.
  unfold DOM.contains, DOM.remove.
  induction l as [|t l IH]; simpl; [reflexivity|].
  destruct (String.eqb token t) eqn:E; simpl; [exact IH|].
  now rewrite E, IH.
Qed.

(** Tokens other than the one written are left as they were. *)
Lemma contains_add_other (token other : string) (l : DOM.DOMTokenList) :
  String.eqb other token = false ->
  DOM.contains other (DOM.add token l) = DOM.contains other l.
Proof.
  intros H. unfold DOM.add. destruct (DOM.contains token l); [reflexivity|].
  unfold DOM.contains. rewrite existsb_app. simpl. rewrite H.
  now rewrite !orb_false_r.
Qed.

Lemma contains_remove_other (token other : string) (l : DOM.DOMTokenList) :
  String.eqb other token = false ->
  DOM.contains other (DOM.remove token l) = DOM.contains other l.
Proof.
  intros H. unfold DOM.contains, DOM.remove.
  induction l as [|t l IH]; simpl; [reflexivity|].
  destruct (String.eqb token t) eqn:E; simpl.
  - apply String.eqb_eq in E. subst t. now rewrite H, IH.
  - now rewrite IH.
Qed.

Lemma marker_sync (t : Theme) (cl : DOM.DOMTokenList) :
  marker (sync t cl) = is_dark t.
Proof.
  unfold sync. destruct t, (marker cl) eqn:E; simpl; try exact E.
  - apply contains_remove.
  - apply contains_add.
Qed.

(** ** [updateClass] *)

Lemma updateClass_run (t : Theme) (cl : DOM.DOMTokenList) :
  ThemeStore.updateClass t cl
  = (tt, sync t cl, DomContains "dark" (marker cl) :: sync_writes t cl).
Proof.
  unfold ThemeStore.updateClass, sync, sync_writes, marker, bind,
    classList_contains.
  destruct t; simpl; destruct (DOM.contains "dark" cl); reflexivity.
Qed.

(** ** [writable] *)

Lemma safe_not_equal_false (a b : Theme) :
  Svelte.safe_not_equal a b = false <-> a = b.
Proof. destruct a, b; cbv; split; congruence. Qed.

Lemma safe_not_equal_refl (a : Theme) : Svelte.safe_not_equal a a = false.
Proof. now apply safe_not_equal_false. Qed.

Lemma with_value_same (w : Svelte.Writable) : with_value (Svelte.value w) w = w.
Proof. now destruct w. Qed.

Lemma run_queue_run (v : Theme) (subs : list Svelte.Subscriber) (cl : DOM.DOMTokenList) :
  Svelte.run_queue (map (fun s => (s, v)) subs) cl
  = (tt, cl, map (fun s => Run (Svelte.sub_key s) (Svelte.sub_run s) v cl) subs).
Proof.
  induction subs as [|s subs IH]; simpl; [reflexivity|].
  unfold bind, invoke. now rewrite IH.
Qed.

Lemma writable_set_run (v : Theme) (w : Svelte.Writable) (cl : DOM.DOMTokenList) :
  Svelte.set v w cl = (with_value v w, cl, store_events w v cl).
Proof.
  unfold Svelte.set, store_events.
  destruct (Svelte.safe_not_equal (Svelte.value w) v) eqn:E.
  - unfold bind, assign. simpl.
    unfold with_value. destruct (Svelte.stop w) eqn:Es.
    + unfold bind. rewrite run_queue_run. simpl. now rewrite app_nil_r.
    + reflexivity.
  - apply safe_not_equal_false in E. subst v. now rewrite with_value_same.
Qed.

(** ** The three mutations *)

Lemma set_run (newTheme : Theme) (w : Svelte.Writable) (cl : DOM.DOMTokenList) :
  ThemeStore.set newTheme w cl
  = (with_value newTheme w, sync newTheme cl,
     (DomContains "dark" (marker cl) :: sync_writes newTheme cl)
       ++ store_events w newTheme (sync newTheme cl)).
Proof.
  unfold ThemeStore.set, bind.
  now rewrite updateClass_run, writable_set_run.
Qed.

Lemma update_run (updater : Theme -> Theme) (w : Svelte.Writable) (cl : DOM.DOMTokenList) :
  let v := updater (Svelte.value w) in
  ThemeStore.update updater w cl
  = (with_value v w, sync v cl,
     (DomContains "dark" (marker cl) :: sync_writes v cl)
       ++ store_events w v (sync v cl)).
Proof.
  unfold ThemeStore.update, Svelte.update, bind, ret.
  rewrite updateClass_run, writable_set_run. simpl.
  now rewrite app_nil_r.
Qed.

Lemma perform_run (m : Mutation) (w : Svelte.Writable) (cl : DOM.DOMTokenList) :
  let v := target m (Svelte.value w) in
  perform m w cl
  = (with_value v w, sync v cl,
     (DomContains "dark" (marker cl) :: sync_writes v cl)
       ++ store_events w v (sync v cl)).
Proof.
  destruct m as [t|f|]; simpl.
  - apply set_run.
  - apply update_run.
  - unfold ThemeStore.toggle. rewrite update_run.
    now destruct (Svelte.value w).
Qed.

Lemma is_dark_true (t : Theme) : is_dark t = true <-> t = DARK.
Proof. destruct t; simpl; split; congruence. Qed.

Lemma perform_value (m : Mutation) (w : Svelte.Writable) (cl : DOM.DOMTokenList) :
  Svelte.value (result (perform m w cl)) = target m (Svelte.value w).
Proof. now rewrite perform_run. Qed.

Lemma perform_classes (m : Mutation) (w : Svelte.Writable) (cl : DOM.DOMTokenList) :
  classes (perform m w cl) = sync (target m (Svelte.value w)) cl.
Proof. now rewrite perform_run. Qed.

Lemma perform_in_sync (m : Mutation) (w : Svelte.Writable) (cl : DOM.DOMTokenList) :
  in_sync (result (perform m w cl)) (classes (perform m w cl)).
Proof.
  unfold in_sync. rewrite perform_value, perform_classes, marker_sync.
  apply is_dark_true.
Qed.

(** ** Sequences of calls *)

Lemma outcome_eta {A} (o : A * DOM.DOMTokenList * list Event) :
  o = (result o, classes o, events o).
Proof. now destruct o as [[a cl] es]. Qed.

Lemma exec_all_cons (c : Call) (cs : list Call) (w : Svelte.Writable)
      (cl : DOM.DOMTokenList) :
  exec_all (c :: cs) w cl
  = (result (exec_all cs (result (exec c w cl)) (classes (exec c w cl))),
     classes (exec_all cs (result (exec c w cl)) (classes (exec c w cl))),
     events (exec c w cl)
       ++ events (exec_all cs (result (exec c w cl)) (classes (exec c w cl)))).
Proof.
  simpl. unfold bind, result, classes, events.
  destruct (exec c w cl) as [[w1 cl1] e1]. simpl.
  now destruct (exec_all cs w1 cl1) as [[w2 cl2] e2].
Qed.

Lemma exec_all_cons_events (c : Call) (cs : list Call) (w : Svelte.Writable)
      (cl : DOM.DOMTokenList) :
  events (exec_all (c :: cs) w cl)
  = events (exec c w cl)
      ++ events (exec_all cs (result (exec c w cl)) (classes (exec c w cl))).
Proof. now rewrite exec_all_cons. Qed.

Lemma exec_all_app (cs1 cs2 : list Call) (w : Svelte.Writable) (cl : DOM.DOMTokenList) :
  exec_all (cs1 ++ cs2) w cl
  = (result (exec_all cs2 (result (exec_all cs1 w cl)) (classes (exec_all cs1 w cl))),
     classes (exec_all cs2 (result (exec_all cs1 w cl)) (classes (exec_all cs1 w cl))),
     events (exec_all cs1 w cl)
       ++ events (exec_all cs2 (result (exec_all cs1 w cl))
                           (classes (exec_all cs1 w cl)))).
Proof.
  revert w cl. induction cs1 as [|c cs1 IH]; intros w cl.
  - simpl app. change (exec_all [] w cl) with (w, cl, @nil Event).
    apply outcome_eta.
  - change ((c :: cs1) ++ cs2) with (c :: (cs1 ++ cs2)).
    rewrite (exec_all_cons c (cs1 ++ cs2)), IH.
    rewrite (exec_all_cons c cs1).
    unfold result, classes, events. cbn [fst snd]. now rewrite app_assoc.
Qed.

Lemma exec_subscribe (cb : Callback) (w : Svelte.Writable) (cl : DOM.DOMTokenList) :
  exec (CSubscribe cb) w cl
  = (fst (result (ThemeStore.subscribe cb w cl)), cl,
     [Run (Svelte.next_key w) cb (Svelte.value w) cl]).
Proof. reflexivity. Qed.

Lemma exec_in_sync (c : Call) (w : Svelte.Writable) (cl : DOM.DOMTokenList) :
  in_sync w cl -> in_sync (result (exec c w cl)) (classes (exec c w cl)).
Proof.
  intros H. destruct c as [m|cb|key].
  - apply perform_in_sync.
  - exact H.
  - exact H.
Qed.

Lemma exec_all_in_sync (cs : list Call) (w : Svelte.Writable) (cl : DOM.DOMTokenList) :
  in_sync w cl -> in_sync (result (exec_all cs w cl)) (classes (exec_all cs w cl)).
Proof.
  revert w cl. induction cs as [|c cs IH]; intros w cl H.
  - exact H.
  - rewrite exec_all_cons. apply IH. now apply exec_in_sync.
Qed.

(** C1. After every [set], [update] or [toggle] of any sequence of calls,
    from any store and any document, the dark class is on the document root
    exactly when the store's current theme is [DARK]; calls of [subscribe]
    and of unsubscribers that come later leave it so. *)
Theorem marker_tracks_theme :
  forall (before after : list Call) (m : Mutation)
         (w : Svelte.Writable) (cl : DOM.DOMTokenList),
    let o := exec_all (before ++ CMutate m :: after) w cl in
    marker (classes o) = true <-> Svelte.value (result o) = DARK.
Proof.
  intros before after m w cl o. subst o.
  rewrite exec_all_app, exec_all_cons.
  apply (exec_all_in_sync after). apply perform_in_sync.
Qed.

(** The scenario of the specification: without the dark class the store
    starts as [LIGHT]; [toggle()] adds the class, makes the theme [DARK] and
    notifies both subscribers with [DARK]; [set(LIGHT)] removes the class,
    makes the theme [LIGHT] and notifies both with [LIGHT]. *)
Example scenario :
  let w0 := result (ThemeStore.createThemeStore ["app"]) in
  let w1 := fst (result (ThemeStore.subscribe 7 w0 ["app"])) in
  let w2 := fst (result (ThemeStore.subscribe 8 w1 ["app"])) in
  let o3 := ThemeStore.toggle w2 ["app"] in
  let o4 := ThemeStore.set LIGHT (result o3) (classes o3) in
  Svelte.value w0 = LIGHT
  /\ classes o3 = ["app"; "dark"]
  /\ Svelte.value (result o3) = DARK
  /\ events o3
     = [DomContains "dark" false; DomAdd "dark"; StoreAssign DARK;
        Run 0 7 DARK ["app"; "dark"]; Run 1 8 DARK ["app"; "dark"]]
  /\ classes o4 = ["app"]
  /\ Svelte.value (result o4) = LIGHT
  /\ events o4
     = [DomContains "dark" true; DomRemove "dark"; StoreAssign LIGHT;
        Run 0 7 LIGHT ["app"]; Run 1 8 LIGHT ["app"]].
Proof. cbv zeta. repeat split. Qed.

(** C2. Construction performs one event, the read of the dark class; the
    document is left as it was, and the initial theme is [DARK] when the
    class is present and [LIGHT] when it is absent. *)
Theorem createThemeStore_reads_marker_once :
  forall cl : DOM.DOMTokenList,
    let o := ThemeStore.createThemeStore cl in
    events o = [DomContains "dark" (marker cl)]
    /\ classes o = cl
    /\ Svelte.value (result o) = (if marker cl then DARK else LIGHT)
    /\ Svelte.subscribers (result o) = [].
Proof.
  intros cl. cbv zeta. repeat split.
Qed.

(** C3. Two calls of [toggle] bring the store back to the state it started
    from, whatever that state is; the marker then shows the starting
    theme. *)
Theorem toggle_involution :
  forall (w : Svelte.Writable) (cl : DOM.DOMTokenList),
    let o1 := ThemeStore.toggle w cl in
    let o2 := ThemeStore.toggle (result o1) (classes o1) in
    result o2 = w
    /\ Svelte.value (result o2) = Svelte.value w
    /\ marker (classes o2) = is_dark (Svelte.value w).
Proof.
  intros w cl o1 o2. subst o1 o2.
  change (ThemeStore.toggle w cl) with (perform MToggle w cl).
  rewrite (perform_run MToggle w cl). cbv zeta. unfold result, classes. simpl fst. simpl snd.
  change (ThemeStore.toggle ?a ?b) with (perform MToggle a b).
  rewrite perform_run. simpl fst. simpl snd.
  rewrite marker_sync.
  destruct w as [v subs st nk]. destruct v; simpl; repeat split.
Qed.

(** C4. [toggle()] and [update] with the function that maps dark to light
    and light to dark have the same outcome: the same store state (hence
    the same current theme), the same class list (hence the same marker)
    and the same events (hence the same notifications). *)
Theorem toggle_is_update_flip :
  forall (w : Svelte.Writable) (cl : DOM.DOMTokenList),
    ThemeStore.toggle w cl = toggle_spec w cl.
Proof.
  intros w cl. unfold ThemeStore.toggle, toggle_spec.
  rewrite !update_run. now destruct (Svelte.value w).
Qed.

(** ** Well-formed stores *)

Lemma writable_well_formed (v : Theme) : well_formed (Svelte.writable v).
Proof.
  unfold well_formed. simpl. repeat split.
  - constructor.
  - constructor.
  - discriminate.
  - intros H. now contradiction H.
Qed.

Lemma one_subscriber_well_formed (v : Theme) : well_formed (one_subscriber v).
Proof.
  unfold well_formed. simpl. repeat split.
  - constructor; [intros []|constructor].
  - constructor; [simpl; lia|constructor].
  - discriminate.
Qed.

Lemma with_value_well_formed (v : Theme) (w : Svelte.Writable) :
  well_formed w -> well_formed (with_value v w).
Proof. intros H. exact H. Qed.

Lemma perform_result (m : Mutation) (w : Svelte.Writable) (cl : DOM.DOMTokenList) :
  result (perform m w cl) = with_value (target m (Svelte.value w)) w.
Proof. now rewrite perform_run. Qed.

Lemma subscribe_well_formed (cb : Callback) (w : Svelte.Writable) (cl : DOM.DOMTokenList) :
  well_formed w -> well_formed (fst (result (ThemeStore.subscribe cb w cl))).
Proof.
  intros (Hnd & Hlt & Hstop). unfold well_formed. simpl.
  rewrite map_app. simpl. repeat split.
  - apply NoDup_app; [exact Hnd | constructor; [intros []|constructor] | ].
    intros k Hin [Hk|[]]. subst k.
    apply in_map_iff in Hin. destruct Hin as (s & Hs & Hin).
    rewrite Forall_forall in Hlt. specialize (Hlt s Hin). lia.
  - apply Forall_app. split.
    + eapply Forall_impl; [|exact Hlt]. simpl. intros s Hs. lia.
    + constructor; [simpl; lia|constructor].
  - intros _. now destruct (Svelte.subscribers w).
  - intros _. rewrite length_app. simpl.
    destruct (Svelte.subscribers w) as [|s subs] eqn:E; [reflexivity|].
    simpl. replace (List.length subs + 1) with (S (List.length subs)) by lia.
    simpl. apply Hstop. discriminate.
Qed.

(** Deleting registrations keeps the remaining keys distinct. *)
Lemma keys_distinct_after_delete (keep : Svelte.Subscriber -> bool)
      (subs : list Svelte.Subscriber) :
  NoDup (map Svelte.sub_key subs) ->
  NoDup (map Svelte.sub_key (filter keep subs)).
Proof.
  intros Hnd. induction subs as [|s subs IH]; simpl; [constructor|].
  simpl in Hnd. apply NoDup_cons_iff in Hnd. destruct Hnd as [Hfresh Hnd].
  destruct (keep s); simpl; [|now apply IH].
  apply NoDup_cons_iff. split; [|now apply IH].
  intros Hin. apply Hfresh.
  apply in_map_iff in Hin. destruct Hin as (s' & Hkey & Hin).
  apply filter_In in Hin. apply in_map_iff. exists s'. tauto.
Qed.

Lemma unsubscribe_well_formed (key : nat) (w : Svelte.Writable) :
  well_formed w -> well_formed (Svelte.unsubscribe key w).
Proof.
  intros (Hnd & Hlt & Hstop). unfold well_formed. simpl.
  set (subs := filter _ (Svelte.subscribers w)).
  assert (Hsub : forall s, In s subs -> In s (Svelte.subscribers w)).
  { intros s Hs. now apply filter_In in Hs. }
  repeat split.
  - now apply keys_distinct_after_delete.
  - rewrite Forall_forall in *. intros s Hs. apply Hlt. now apply Hsub.
  - destruct subs as [|s subs'] eqn:E; simpl.
    + destruct (Svelte.stop w); discriminate.
    + discriminate.
  - intros Hne. destruct subs as [|s subs'] eqn:E; [now contradiction Hne|].
    simpl. apply Hstop. intros Hnil.
    specialize (Hsub s (or_introl eq_refl)). rewrite Hnil in Hsub. exact Hsub.
Qed.

Lemma exec_well_formed (c : Call) (w : Svelte.Writable) (cl : DOM.DOMTokenList) :
  well_formed w -> well_formed (result (exec c w cl)).
Proof.
  intros H. destruct c as [m|cb|key].
  - simpl exec. rewrite perform_result. now apply with_value_well_formed.
  - now apply (subscribe_well_formed cb w cl).
  - now apply unsubscribe_well_formed.
Qed.

Lemma exec_all_well_formed (cs : list Call) (w : Svelte.Writable) (cl : DOM.DOMTokenList) :
  well_formed w -> well_formed (result (exec_all cs w cl)).
Proof.
  revert w cl. induction cs as [|c cs IH]; intros w cl H; [exact H|].
  rewrite exec_all_cons. apply IH. now apply exec_well_formed.
Qed.

(** Every store that calls reach from a construction is well formed. *)
Lemma reachable_well_formed (cs : list Call) (cl0 cl : DOM.DOMTokenList) :
  well_formed (result (exec_all cs (result (ThemeStore.createThemeStore cl0)) cl)).
Proof. apply exec_all_well_formed. apply writable_well_formed. Qed.

(** The store of the examples is the one reached by one [subscribe] on a
    document without the dark class. *)
Example one_subscriber_reached :
  fst (result (ThemeStore.subscribe 7 (result (ThemeStore.createThemeStore [])) []))
  = one_subscriber LIGHT.
Proof. reflexivity. Qed.

(** The allocator never hands out a key again. *)
Lemma exec_next_key (c : Call) (w : Svelte.Writable) (cl : DOM.DOMTokenList) :
  Svelte.next_key w <= Svelte.next_key (result (exec c w cl)).
Proof.
  destruct c as [m|cb|key].
  - simpl exec. rewrite perform_result. simpl. lia.
  - simpl. lia.
  - simpl. lia.
Qed.

(** ** Notifications of a trace *)

Lemma notifications_app (es1 es2 : list Event) :
  notifications (es1 ++ es2) = notifications es1 ++ notifications es2.
Proof.
  induction es1 as [|e es1 IH]; simpl; [reflexivity|].
  destruct e; simpl; now rewrite IH.
Qed.

Lemma deliveries_app (key : nat) (es1 es2 : list Event) :
  deliveries key (es1 ++ es2) = deliveries key es1 ++ deliveries key es2.
Proof.
  induction es1 as [|e es1 IH]; simpl; [reflexivity|].
  destruct e as [tok b|tok|tok|v|k cb v seen]; simpl; try exact IH.
  destruct (Nat.eqb k key); simpl; now rewrite IH.
Qed.

Lemma notifications_sync_writes (t : Theme) (cl : DOM.DOMTokenList) :
  notifications (sync_writes t cl) = [].
Proof. unfold sync_writes. now destruct t, (marker cl). Qed.

Lemma deliveries_sync_writes (key : nat) (t : Theme) (cl : DOM.DOMTokenList) :
  deliveries key (sync_writes t cl) = [].
Proof. unfold sync_writes. now destruct t, (marker cl). Qed.

Lemma notifications_runs (v : Theme) (cl : DOM.DOMTokenList)
      (subs : list Svelte.Subscriber) :
  notifications
    (map (fun s => Run (Svelte.sub_key s) (Svelte.sub_run s) v cl) subs)
  = map (fun s => (Svelte.sub_key s, Svelte.sub_run s, v)) subs.
Proof. induction subs as [|s subs IH]; simpl; [reflexivity|]. now rewrite IH. Qed.

Lemma deliveries_runs_absent (key : nat) (v : Theme) (cl : DOM.DOMTokenList)
      (subs : list Svelte.Subscriber) :
  ~ In key (map Svelte.sub_key subs) ->
  deliveries key
    (map (fun s => Run (Svelte.sub_key s) (Svelte.sub_run s) v cl) subs) = [].
Proof.
  induction subs as [|s subs IH]; simpl; intros H; [reflexivity|].
  destruct (Nat.eqb (Svelte.sub_key s) key) eqn:E.
  - apply Nat.eqb_eq in E. exfalso. apply H. now left.
  - apply IH. intros Hin. apply H. now right.
Qed.

Lemma deliveries_runs_present (key : nat) (v : Theme) (cl : DOM.DOMTokenList)
      (subs : list Svelte.Subscriber) :
  NoDup (map Svelte.sub_key subs) ->
  In key (map Svelte.sub_key subs) ->
  deliveries key
    (map (fun s => Run (Svelte.sub_key s) (Svelte.sub_run s) v cl) subs) = [v].
Proof.
  induction subs as [|s subs IH]; simpl; intros Hnd Hin; [contradiction|].
  inversion Hnd as [|x xs Hnotin Hnd']; subst.
  destruct (Nat.eqb (Svelte.sub_key s) key) eqn:E.
  - apply Nat.eqb_eq in E. subst key.
    now rewrite deliveries_runs_absent.
  - apply Nat.eqb_neq in E. destruct Hin as [Hin|Hin]; [contradiction|].
    now apply IH.
Qed.

Lemma notifications_store_events (w : Svelte.Writable) (v : Theme)
      (cl : DOM.DOMTokenList) :
  well_formed w ->
  notifications (store_events w v cl)
  = if Svelte.safe_not_equal (Svelte.value w) v then notify_all w v else [].
Proof.
  intros (_ & _ & Hstop). unfold store_events, notify_all.
  destruct (Svelte.safe_not_equal (Svelte.value w) v); [|reflexivity].
  simpl. destruct (Svelte.stop w) eqn:Es.
  - apply notifications_runs.
  - destruct (Svelte.subscribers w) as [|s subs]; [reflexivity|].
    assert (false = true) by (apply Hstop; discriminate). discriminate.
Qed.

Lemma deliveries_store_events_absent (key : nat) (w : Svelte.Writable) (v : Theme)
      (cl : DOM.DOMTokenList) :
  ~ registered key w -> deliveries key (store_events w v cl) = [].
Proof.
  intros H. unfold store_events.
  destruct (Svelte.safe_not_equal (Svelte.value w) v); [|reflexivity].
  simpl. destruct (Svelte.stop w); [|reflexivity].
  now apply deliveries_runs_absent.
Qed.

Lemma deliveries_store_events_present (key : nat) (w : Svelte.Writable) (v : Theme)
      (cl : DOM.DOMTokenList) :
  well_formed w -> registered key w ->
  deliveries key (store_events w v cl)
  = if Svelte.safe_not_equal (Svelte.value w) v then [v] else [].
Proof.
  intros (Hnd & _ & Hstop) Hreg. unfold store_events.
  destruct (Svelte.safe_not_equal (Svelte.value w) v); [|reflexivity].
  simpl. destruct (Svelte.stop w) eqn:Es.
  - now apply deliveries_runs_present.
  - unfold registered in Hreg.
    destruct (Svelte.subscribers w) as [|s subs]; [contradiction|].
    assert (false = true) by (apply Hstop; discriminate). discriminate.
Qed.

Lemma perform_events (m : Mutation) (w : Svelte.Writable) (cl : DOM.DOMTokenList) :
  events (perform m w cl)
  = (DomContains "dark" (marker cl) :: sync_writes (target m (Svelte.value w)) cl)
      ++ store_events w (target m (Svelte.value w))
                      (sync (target m (Svelte.value w)) cl).
Proof. now rewrite perform_run. Qed.

Lemma deliveries_perform_present (key : nat) (m : Mutation) (w : Svelte.Writable)
      (cl : DOM.DOMTokenList) :
  well_formed w -> registered key w ->
  deliveries key (events (perform m w cl))
  = if Svelte.safe_not_equal (Svelte.value w) (target m (Svelte.value w))
    then [target m (Svelte.value w)] else [].
Proof.
  intros Hwf Hreg. rewrite perform_events, deliveries_app. simpl.
  rewrite deliveries_sync_writes. simpl.
  now apply deliveries_store_events_present.
Qed.

Lemma deliveries_perform_absent (key : nat) (m : Mutation) (w : Svelte.Writable)
      (cl : DOM.DOMTokenList) :
  ~ registered key w -> deliveries key (events (perform m w cl)) = [].
Proof.
  intros Hreg. rewrite perform_events, deliveries_app. simpl.
  rewrite deliveries_sync_writes. simpl.
  now apply deliveries_store_events_absent.
Qed.

(** ** Deliveries over sequences of calls *)

Lemma exec_registered (key : nat) (c : Call) (w : Svelte.Writable)
      (cl : DOM.DOMTokenList) :
  keeps key c = true -> registered key w -> registered key (result (exec c w cl)).
Proof.
  unfold registered. intros Hk Hreg. destruct c as [m|cb|k].
  - simpl exec. now rewrite perform_result.
  - simpl. rewrite map_app. apply in_or_app. now left.
  - simpl in *. apply in_map_iff in Hreg. destruct Hreg as (s & Hs & Hin).
    apply in_map_iff. exists s. split; [exact Hs|].
    apply filter_In. split; [exact Hin|].
    rewrite Hs. apply negb_true_iff. apply negb_true_iff in Hk.
    apply Nat.eqb_neq. apply Nat.eqb_neq in Hk. congruence.
Qed.

Lemma exec_all_registered (key : nat) (cs : list Call) :
  forall (w : Svelte.Writable) (cl : DOM.DOMTokenList),
    forallb (keeps key) cs = true -> registered key w ->
    registered key (result (exec_all cs w cl)).
Proof.
  induction cs as [|c cs IH]; intros w cl Hk Hreg; [exact Hreg|].
  simpl in Hk. apply andb_true_iff in Hk. destruct Hk as [Hc Hcs].
  rewrite exec_all_cons. apply IH; [exact Hcs|now apply exec_registered].
Qed.

Lemma registered_allocated (key : nat) (w : Svelte.Writable) :
  well_formed w -> registered key w -> key < Svelte.next_key w.
Proof.
  intros (_ & Hlt & _) Hreg. unfold registered in Hreg.
  apply in_map_iff in Hreg. destruct Hreg as (s & Hs & Hin).
  rewrite Forall_forall in Hlt. specialize (Hlt s Hin). simpl in Hlt. lia.
Qed.

Lemma exec_value (c : Call) (w : Svelte.Writable) (cl : DOM.DOMTokenList) :
  Svelte.value (result (exec c w cl))
  = match c with
    | CMutate m => target m (Svelte.value w)
    | _ => Svelte.value w
    end.
Proof. destruct c as [m|cb|k]; [apply perform_value|reflexivity|reflexivity]. Qed.

(** While a registration is in place it is handed every change, once, in
    the order the changes occur. *)
Lemma deliveries_while_registered (key : nat) (cs : list Call) :
  forall (w : Svelte.Writable) (cl : DOM.DOMTokenList),
    well_formed w -> registered key w -> forallb (keeps key) cs = true ->
    deliveries key (events (exec_all cs w cl))
    = changes (Svelte.value w) (mutations_of cs).
Proof.
  induction cs as [|c cs IH]; intros w cl Hwf Hreg Hk; [reflexivity|].
  simpl in Hk. apply andb_true_iff in Hk. destruct Hk as [Hc Hcs].
  rewrite exec_all_cons. unfold events at 1. cbn [snd].
  rewrite deliveries_app.
  rewrite (IH _ _ (exec_well_formed c w cl Hwf)
              (exec_registered key c w cl Hc Hreg) Hcs).
  rewrite exec_value.
  destruct c as [m|cb|k].
  - simpl exec. rewrite (deliveries_perform_present key m w cl Hwf Hreg).
    simpl. now destruct (Svelte.safe_not_equal _ _).
  - rewrite exec_subscribe. unfold events at 1. simpl.
    pose proof (registered_allocated key w Hwf Hreg) as Hlt.
    destruct (Nat.eqb (Svelte.next_key w) key) eqn:E; [|reflexivity].
    apply Nat.eqb_eq in E. lia.
  - reflexivity.
Qed.

(** A key that is allocated and not registered is never called again. *)
Lemma deliveries_after_removal (key : nat) (cs : list Call) :
  forall (w : Svelte.Writable) (cl : DOM.DOMTokenList),
    well_formed w -> ~ registered key w -> key < Svelte.next_key w ->
    deliveries key (events (exec_all cs w cl)) = [].
Proof.
  induction cs as [|c cs IH]; intros w cl Hwf Hreg Hlt; [reflexivity|].
  rewrite exec_all_cons. unfold events at 1. cbn [snd].
  rewrite deliveries_app.
  rewrite IH.
  - rewrite app_nil_r. destruct c as [m|cb|k].
    + now apply deliveries_perform_absent.
    + rewrite exec_subscribe. unfold events. simpl.
      destruct (Nat.eqb (Svelte.next_key w) key) eqn:E; [|reflexivity].
      apply Nat.eqb_eq in E. lia.
    + reflexivity.
  - now apply exec_well_formed.
  - unfold registered in *. destruct c as [m|cb|k].
    + simpl exec. now rewrite perform_result.
    + simpl. rewrite map_app. simpl. intros Hin.
      apply in_app_or in Hin. destruct Hin as [Hin|[Hin|[]]]; [now apply Hreg|lia].
    + simpl. intros Hin. apply Hreg.
      apply in_map_iff in Hin. destruct Hin as (s & Hs & Hin).
      apply filter_In in Hin. apply in_map_iff. exists s. tauto.
  - pose proof (exec_next_key c w cl). lia.
Qed.

Lemma unsubscribe_removes (key : nat) (w : Svelte.Writable) :
  ~ registered key (Svelte.unsubscribe key w).
Proof.
  unfold registered. simpl. intros Hin.
  apply in_map_iff in Hin. destruct Hin as (s & Hs & Hin).
  apply filter_In in Hin. destruct Hin as [_ Hne].
  apply negb_true_iff in Hne. apply Nat.eqb_neq in Hne. congruence.
Qed.

Lemma unsubscribe_keeps_others (key other : nat) (w : Svelte.Writable) :
  other <> key -> registered other w -> registered other (Svelte.unsubscribe key w).
Proof.
  intros Hne Hreg.
  apply (exec_registered other (CUnsubscribe key) w []); [|exact Hreg].
  simpl. apply negb_true_iff. apply Nat.eqb_neq. congruence.
Qed.

(** ** Deliveries by callback *)

Lemma calls_of_app (cb : Callback) (es1 es2 : list Event) :
  calls_of cb (es1 ++ es2) = calls_of cb es1 ++ calls_of cb es2.
Proof.
  induction es1 as [|e es1 IH]; simpl; [reflexivity|].
  destruct e as [tok b|tok|tok|v|k c v seen]; simpl; try exact IH.
  destruct (Nat.eqb c cb); simpl; now rewrite IH.
Qed.

Lemma calls_of_sync_writes (cb : Callback) (t : Theme) (cl : DOM.DOMTokenList) :
  calls_of cb (sync_writes t cl) = [].
Proof. unfold sync_writes. now destruct t, (marker cl). Qed.

Lemma calls_of_store_events (key : nat) (cb : Callback) (w : Svelte.Writable)
      (v : Theme) (cl : DOM.DOMTokenList) :
  sole_registration key cb w ->
  calls_of cb (store_events w v cl) = deliveries key (store_events w v cl).
Proof.
  unfold sole_registration, store_events. intros Hsole.
  destruct (Svelte.safe_not_equal _ _); [|reflexivity]. simpl.
  destruct (Svelte.stop w); [|reflexivity].
  induction Hsole as [|s subs Hs Hsubs IH]; simpl; [reflexivity|].
  rewrite Hs, IH. reflexivity.
Qed.

Lemma calls_of_perform (key : nat) (cb : Callback) (m : Mutation)
      (w : Svelte.Writable) (cl : DOM.DOMTokenList) :
  sole_registration key cb w ->
  calls_of cb (events (perform m w cl)) = deliveries key (events (perform m w cl)).
Proof.
  intros Hsole. rewrite perform_events, calls_of_app, deliveries_app. simpl.
  rewrite calls_of_sync_writes, deliveries_sync_writes. simpl.
  now apply calls_of_store_events.
Qed.

Lemma exec_sole_registration (key : nat) (cb : Callback) (c : Call)
      (w : Svelte.Writable) (cl : DOM.DOMTokenList) :
  key < Svelte.next_key w -> avoids cb c = true ->
  sole_registration key cb w ->
  sole_registration key cb (result (exec c w cl)).
Proof.
  unfold sole_registration. intros Hlt Hav Hsole. destruct c as [m|cb'|k].
  - simpl exec. now rewrite perform_result.
  - simpl in *. apply Forall_app. split; [exact Hsole|].
    constructor; [|constructor]. simpl.
    apply negb_true_iff in Hav. rewrite Hav. symmetry. apply Nat.eqb_neq. lia.
  - simpl. rewrite Forall_forall in *. intros s Hs.
    apply filter_In in Hs. now apply Hsole.
Qed.

(** Through its one registration, a callback is handed what the
    registration is handed. *)
Lemma calls_of_sole_registration (key : nat) (cb : Callback) (cs : list Call) :
  forall (w : Svelte.Writable) (cl : DOM.DOMTokenList),
    key < Svelte.next_key w -> sole_registration key cb w ->
    forallb (avoids cb) cs = true ->
    calls_of cb (events (exec_all cs w cl))
    = deliveries key (events (exec_all cs w cl)).
Proof.
  induction cs as [|c cs IH]; intros w cl Hlt Hsole Hav; [reflexivity|].
  simpl in Hav. apply andb_true_iff in Hav. destruct Hav as [Hc Hcs].
  rewrite exec_all_cons_events.
  rewrite calls_of_app, deliveries_app. rewrite IH.
  - f_equal. destruct c as [m|cb'|k].
    + now apply calls_of_perform.
    + rewrite exec_subscribe. unfold events. simpl in *.
      apply negb_true_iff in Hc. rewrite Hc.
      destruct (Nat.eqb (Svelte.next_key w) key) eqn:E; [|reflexivity].
      apply Nat.eqb_eq in E. lia.
    + reflexivity.
  - pose proof (exec_next_key c w cl). lia.
  - now apply exec_sole_registration.
  - exact Hcs.
Qed.

Lemma subscribe_sole_registration (cb : Callback) (w : Svelte.Writable)
      (cl : DOM.DOMTokenList) :
  well_formed w -> fresh_callback cb w ->
  sole_registration (Svelte.next_key w) cb
                    (fst (result (ThemeStore.subscribe cb w cl))).
Proof.
  intros (_ & Hlt & _) Hfresh. unfold sole_registration, fresh_callback in *.
  simpl. apply Forall_app. split.
  - rewrite Forall_forall in *. intros s Hs.
    specialize (Hlt s Hs). simpl in Hlt.
    replace (Nat.eqb (Svelte.sub_key s) (Svelte.next_key w)) with false
      by (symmetry; apply Nat.eqb_neq; lia).
    apply Nat.eqb_neq. intros Heq. apply Hfresh.
    apply in_map_iff. now exists s.
  - constructor; [|constructor]. simpl. now rewrite !Nat.eqb_refl.
Qed.

Lemma unsubscribe_sole_registration (key : nat) (cb : Callback)
      (w : Svelte.Writable) :
  sole_registration key cb w -> fresh_callback cb (Svelte.unsubscribe key w).
Proof.
  unfold sole_registration, fresh_callback. simpl. intros Hsole Hin.
  apply in_map_iff in Hin. destruct Hin as (s & Hcb & Hin).
  apply filter_In in Hin. destruct Hin as [Hin Hne].
  rewrite Forall_forall in Hsole. specialize (Hsole s Hin). simpl in Hsole.
  apply negb_true_iff in Hne. rewrite Hne in Hsole.
  apply Nat.eqb_neq in Hsole. contradiction.
Qed.

Lemma exec_all_sole_registration (key : nat) (cb : Callback) (cs : list Call) :
  forall (w : Svelte.Writable) (cl : DOM.DOMTokenList),
    key < Svelte.next_key w -> sole_registration key cb w ->
    forallb (avoids cb) cs = true ->
    sole_registration key cb (result (exec_all cs w cl)).
Proof.
  induction cs as [|c cs IH]; intros w cl Hlt Hsole Hav; [exact Hsole|].
  simpl in Hav. apply andb_true_iff in Hav. destruct Hav as [Hc Hcs].
  rewrite exec_all_cons. apply IH; [|now apply exec_sole_registration|exact Hcs].
  pose proof (exec_next_key c w cl). lia.
Qed.

(** A callback without registration is not called, unless it is subscribed. *)
Lemma calls_of_fresh_callback (cb : Callback) (cs : list Call) :
  forall (w : Svelte.Writable) (cl : DOM.DOMTokenList),
    fresh_callback cb w -> forallb (avoids cb) cs = true ->
    calls_of cb (events (exec_all cs w cl)) = [].
Proof.
  induction cs as [|c cs IH]; intros w cl Hfresh Hav; [reflexivity|].
  simpl in Hav. apply andb_true_iff in Hav. destruct Hav as [Hc Hcs].
  rewrite exec_all_cons. unfold events at 1. cbn [snd].
  rewrite calls_of_app, IH; [|clear IH|exact Hcs].
  - rewrite app_nil_r. unfold fresh_callback in Hfresh. destruct c as [m|cb'|k].
    + simpl exec. rewrite perform_events, calls_of_app. simpl.
      rewrite calls_of_sync_writes. simpl.
      unfold store_events. destruct (Svelte.safe_not_equal _ _); [|reflexivity].
      simpl. destruct (Svelte.stop w); [|reflexivity].
      induction (Svelte.subscribers w) as [|s subs IHs]; simpl; [reflexivity|].
      simpl in Hfresh.
      destruct (Nat.eqb (Svelte.sub_run s) cb) eqn:E.
      * apply Nat.eqb_eq in E. exfalso. apply Hfresh. now left.
      * apply IHs. intros Hin. apply Hfresh. now right.
    + rewrite exec_subscribe. unfold events. simpl in *.
      apply negb_true_iff in Hc. now rewrite Hc.
    + reflexivity.
  - unfold fresh_callback in *. destruct c as [m|cb'|k].
    + simpl exec. now rewrite perform_result.
    + simpl in *. rewrite map_app. simpl. intros Hin.
      apply in_app_or in Hin. destruct Hin as [Hin|[Hin|[]]]; [now apply Hfresh|].
      apply negb_true_iff in Hc. apply Nat.eqb_neq in Hc. contradiction.
    + simpl. intros Hin. apply Hfresh.
      apply in_map_iff in Hin. destruct Hin as (s & Hs & Hin).
      apply filter_In in Hin. apply in_map_iff. exists s. tauto.
Qed.

(** ** [set] *)

(** C5, as stated, fails: [set] with the theme the store already has calls
    no subscriber, since [writable]'s [set] returns at once when the value is
    unchanged.  With one subscriber and current theme [LIGHT], [set(LIGHT)]
    makes no notification. *)
Lemma set_same_theme_is_silent :
  notifications (events (ThemeStore.set LIGHT (one_subscriber LIGHT) [])) = []
  /\ notify_all (one_subscriber LIGHT) LIGHT = [(0, 7, LIGHT)]
  /\ ~ (forall (newTheme : Theme) (w : Svelte.Writable) (cl : DOM.DOMTokenList),
           well_formed w ->
           notifications (events (ThemeStore.set newTheme w cl))
           = notify_all w newTheme).
Proof.
  split; [reflexivity|]. split; [reflexivity|].
  intros H.
  specialize (H LIGHT (one_subscriber LIGHT) [] (one_subscriber_well_formed LIGHT)).
  vm_compute in H. discriminate H.
Qed.

(** C5, amended.  [set(newTheme)] adds the dark class if [newTheme] is dark
    and the class is absent, removes it if [newTheme] is light and the class
    is present, and writes nothing to the document otherwise; afterwards the
    current theme is [newTheme]; every subscriber is notified with
    [newTheme] when it differs from the theme before the call, and no
    subscriber is notified when it is the same. *)
Theorem set_syncs_marker_and_notifies_changes :
  forall (newTheme : Theme) (w : Svelte.Writable) (cl : DOM.DOMTokenList),
    well_formed w ->
    let o := ThemeStore.set newTheme w cl in
    classes o = sync newTheme cl
    /\ filter is_dom_write (events o) = sync_writes newTheme cl
    /\ Svelte.value (result o) = newTheme
    /\ notifications (events o)
       = (if Svelte.safe_not_equal (Svelte.value w) newTheme
          then notify_all w newTheme else []).
Proof.
  intros newTheme w cl Hwf o. subst o. rewrite set_run.
  unfold classes, events, result. cbn [fst snd].
  repeat split.
  - rewrite filter_app. simpl.
    assert (Hs : filter is_dom_write (store_events w newTheme (sync newTheme cl)) = []).
    { unfold store_events.
      destruct (Svelte.safe_not_equal _ _); [|reflexivity]. simpl.
      destruct (Svelte.stop w); [|reflexivity].
      induction (Svelte.subscribers w) as [|s subs IH]; simpl; [reflexivity|exact IH]. }
    rewrite Hs, app_nil_r.
    unfold sync_writes. now destruct newTheme, (marker cl).
  - rewrite notifications_app. simpl. rewrite notifications_sync_writes. simpl.
    now apply notifications_store_events.
Qed.

Lemma set_syncs_marker_and_notifies_changes_witness :
  well_formed (one_subscriber LIGHT)
  /\ classes (ThemeStore.set DARK (one_subscriber LIGHT) ["app"]) = ["app"; "dark"]
  /\ filter is_dom_write (events (ThemeStore.set DARK (one_subscriber LIGHT) ["app"]))
     = [DomAdd "dark"]
  /\ Svelte.value (result (ThemeStore.set DARK (one_subscriber LIGHT) ["app"])) = DARK
  /\ notifications (events (ThemeStore.set DARK (one_subscriber LIGHT) ["app"]))
     = [(0, 7, DARK)].
Proof.
  split; [apply one_subscriber_well_formed|].
  exact (set_syncs_marker_and_notifies_changes
           DARK (one_subscriber LIGHT) ["app"] (one_subscriber_well_formed LIGHT)).
Defined.

(** ** Order of the effects *)

(** With callbacks that only observe, the events of a [set], [update] or
    [toggle] split in two: first the
    accesses to the document, after which the class list is already the one
    the call returns with and shows the marker of the new theme; then the
    assignment of the store's value and the notifications, each of which
    hands over the new current theme to a callback that sees the updated
    class list. *)
Theorem marker_synced_before_store :
  forall (m : Mutation) (w : Svelte.Writable) (cl : DOM.DOMTokenList),
    let o := perform m w cl in
    exists D S : list Event,
      events o = D ++ S
      /\ forallb is_dom D = true
      /\ forallb is_store S = true
      /\ replay D cl = classes o
      /\ marker (classes o) = is_dark (Svelte.value (result o))
      /\ Forall (delivers (Svelte.value (result o)) (classes o)) S.
Proof.
  intros m w cl o. subst o.
  rewrite perform_events, perform_classes, perform_value.
  set (v := target m (Svelte.value w)).
  exists (DomContains "dark" (marker cl) :: sync_writes v cl),
         (store_events w v (sync v cl)).
  repeat split.
  - unfold sync_writes. now destruct v, (marker cl).
  - unfold store_events. destruct (Svelte.safe_not_equal _ _); [|reflexivity].
    simpl. destruct (Svelte.stop w); [|reflexivity].
    induction (Svelte.subscribers w) as [|s subs IH]; simpl; [reflexivity|exact IH].
  - unfold sync_writes, sync. simpl. now destruct v, (marker cl).
  - apply marker_sync.
  - unfold store_events. destruct (Svelte.safe_not_equal _ _); [|constructor].
    constructor; [exact I|].
    destruct (Svelte.stop w); [|constructor].
    apply Forall_forall. intros e He. apply in_map_iff in He.
    destruct He as (s & <- & _). now split.
Qed.

(** ** [subscribe] *)

(** With callbacks that only observe, [subscribe(cb)] calls [cb] once, at
    once, with the current theme, and does nothing else.  From then on, through any calls that do not
    unsubscribe it, the registration is handed the theme at subscription
    time followed by each change of the theme, once each and in order.
    Once its unsubscriber has been called it is never handed anything
    again, whatever calls follow, while every other registration that is
    still in place goes on being handed every change.  When [cb] has no
    other registration, before or after, the same holds of the calls of
    [cb] itself. *)
Theorem subscribe_contract :
  forall (cb : Callback) (w : Svelte.Writable) (cl : DOM.DOMTokenList),
    well_formed w ->
    let o := ThemeStore.subscribe cb w cl in
    let w1 := fst (result o) in
    let key := snd (result o) in
    events o = [Run key cb (Svelte.value w) cl]
    /\ classes o = cl
    /\ Svelte.value w1 = Svelte.value w
    /\ (forall (cs : list Call) (cl1 : DOM.DOMTokenList),
          forallb (keeps key) cs = true ->
          deliveries key (events o ++ events (exec_all cs w1 cl1))
          = Svelte.value w :: changes (Svelte.value w) (mutations_of cs))
    /\ (forall (cs : list Call) (cl1 : DOM.DOMTokenList),
          forallb (keeps key) cs = true ->
          let w2 := result (exec_all cs w1 cl1) in
          let w3 := Svelte.unsubscribe key w2 in
          (forall (cs' : list Call) (cl3 : DOM.DOMTokenList),
              deliveries key (events (exec_all cs' w3 cl3)) = [])
          /\ (forall other : nat,
                 other <> key -> registered other w2 ->
                 registered other w3
                 /\ forall (cs' : list Call) (cl3 : DOM.DOMTokenList),
                     forallb (keeps other) cs' = true ->
                     deliveries other (events (exec_all cs' w3 cl3))
                     = changes (Svelte.value w2) (mutations_of cs')))
    /\ (fresh_callback cb w ->
        forall (cs : list Call) (cl1 : DOM.DOMTokenList),
          forallb (keeps key) cs = true -> forallb (avoids cb) cs = true ->
          calls_of cb (events o ++ events (exec_all cs w1 cl1))
          = Svelte.value w :: changes (Svelte.value w) (mutations_of cs)
          /\ forall (cs' : list Call) (cl3 : DOM.DOMTokenList),
              forallb (avoids cb) cs' = true ->
              calls_of cb
                (events (exec_all cs'
                           (Svelte.unsubscribe key (result (exec_all cs w1 cl1)))
                           cl3))
              = []).
Proof.
  intros cb w cl Hwf o w1 key.
  assert (Hwf1 : well_formed w1) by now apply (subscribe_well_formed cb w cl).
  assert (Hreg1 : registered key w1).
  { unfold registered. subst w1 key o. simpl. rewrite map_app.
    apply in_or_app. right. now left. }
  assert (Hlt1 : key < Svelte.next_key w1) by (subst w1 key o; simpl; lia).
  split; [reflexivity|]. split; [reflexivity|]. split; [reflexivity|].
  split; [|split].
  - intros cs cl1 Hk. rewrite deliveries_app.
    rewrite (deliveries_while_registered key cs w1 cl1 Hwf1 Hreg1 Hk).
    subst o key. simpl. now rewrite Nat.eqb_refl.
  - intros cs cl1 Hk w2 w3.
    assert (Hwf2 : well_formed w2) by now apply exec_all_well_formed.
    assert (Hwf3 : well_formed w3) by now apply unsubscribe_well_formed.
    assert (Hreg2 : registered key w2) by now apply exec_all_registered.
    split.
    + intros cs' cl3. apply deliveries_after_removal; [exact Hwf3| |].
      * apply unsubscribe_removes.
      * apply (registered_allocated key w2 Hwf2 Hreg2).
    + intros other Hne Hother. split; [now apply unsubscribe_keeps_others|].
      intros cs' cl3 Hk'.
      rewrite (deliveries_while_registered other cs' w3 cl3 Hwf3); [reflexivity| |exact Hk'].
      now apply unsubscribe_keeps_others.
  - intros Hfresh cs cl1 Hk Hav.
    assert (Hsole1 : sole_registration key cb w1)
      by now apply (subscribe_sole_registration cb w cl).
    split.
    + rewrite calls_of_app.
      rewrite (calls_of_sole_registration key cb cs w1 cl1 Hlt1 Hsole1 Hav).
      rewrite (deliveries_while_registered key cs w1 cl1 Hwf1 Hreg1 Hk).
      subst o. simpl. now rewrite Nat.eqb_refl.
    + intros cs' cl3 Hav'. apply calls_of_fresh_callback; [|exact Hav'].
      apply unsubscribe_sole_registration.
      now apply exec_all_sole_registration.
Qed.

Lemma subscribe_contract_witness :
  well_formed (one_subscriber LIGHT)
  /\ events (ThemeStore.subscribe 9 (one_subscriber LIGHT) ["app"])
     = [Run 1 9 LIGHT ["app"]]
  /\ deliveries 1
       (events (ThemeStore.subscribe 9 (one_subscriber LIGHT) ["app"])
          ++ events
               (exec_all
                  [CMutate MToggle; CMutate (MSet DARK); CUnsubscribe 0;
                   CMutate (MUpdate (fun _ => LIGHT))]
                  (fst (result (ThemeStore.subscribe 9 (one_subscriber LIGHT) ["app"])))
                  ["app"]))
     = [LIGHT; DARK; LIGHT].
Proof.
  pose proof (subscribe_contract 9 (one_subscriber LIGHT) ["app"]
                (one_subscriber_well_formed LIGHT)) as H.
  cbv zeta in H. destruct H as (Hnow & _ & _ & Hlater & _).
  split; [apply one_subscriber_well_formed|]. split; [exact Hnow|].
  exact (Hlater [CMutate MToggle; CMutate (MSet DARK); CUnsubscribe 0;
                 CMutate (MUpdate (fun _ => LIGHT))] ["app"] eq_refl).
Defined.

(** ** [classNames] *)

Lemma append_nil_r (s : string) : String.append s "" = s.
Proof. induction s as [|a s IH]; simpl; [reflexivity|now rewrite IH]. Qed.

Lemma append_assoc (s1 s2 s3 : string) :
  String.append (String.append s1 s2) s3 = String.append s1 (String.append s2 s3).
Proof. induction s1 as [|a s1 IH]; simpl; [reflexivity|now rewrite IH]. Qed.

Lemma concat_cons (separator x : string) (xs : list string) :
  String.concat separator (x :: xs) = String.append x (prefixed separator xs).
Proof.
  revert x. induction xs as [|y ys IH]; intros x.
  - simpl. now rewrite append_nil_r.
  - change (String.concat separator (x :: y :: ys))
      with (String.append x (String.append separator (String.concat separator (y :: ys)))).
    now rewrite IH.
Qed.

Lemma join_loop_from (separator : string) (a : list ClassUtil.ClassValue) :
  forall (k : nat) (R : string),
    0 < k ->
    snd (fold_left (ClassUtil.join_step separator) a (k, R))
    = String.append R (prefixed separator (map ClassUtil.element_string a)).
Proof.
  induction a as [|c a IH]; intros k R Hk.
  - simpl. now rewrite append_nil_r.
  - simpl fold_left. rewrite IH by lia.
    destruct k as [|k]; [lia|]. simpl. now rewrite !append_assoc.
Qed.

Lemma join_concat (separator : string) (a : list ClassUtil.ClassValue) :
  ClassUtil.join separator a
  = String.concat separator (map ClassUtil.element_string a).
Proof.
  unfold ClassUtil.join. destruct a as [|c a]; [reflexivity|].
  simpl fold_left. rewrite join_loop_from by lia.
  simpl map. now rewrite concat_cons.
Qed.

Lemma truthy_filter (classes : list ClassUtil.ClassValue) :
  map ClassUtil.element_string
      (filter (fun c => JS.Boolean (ClassUtil.to_value c)) classes)
  = ClassUtil.truthy_strings classes.
Proof.
  induction classes as [|c classes IH]; [reflexivity|].
  destruct c as [s| | |]; simpl; try exact IH.
  destruct (String.eqb s ""); simpl; now rewrite IH.
Qed.

Lemma truthy_strings_app (l1 l2 : list ClassUtil.ClassValue) :
  ClassUtil.truthy_strings (l1 ++ l2)
  = ClassUtil.truthy_strings l1 ++ ClassUtil.truthy_strings l2.
Proof.
  induction l1 as [|c l1 IH]; [reflexivity|].
  destruct c as [s| | |]; simpl; try exact IH.
  destruct (String.eqb s ""); simpl; now rewrite IH.
Qed.

Lemma truthy_strings_falsy (classes : list ClassUtil.ClassValue) :
  ClassUtil.truthy_strings (filter ClassUtil.falsy classes) = [].
Proof.
  induction classes as [|c classes IH]; [reflexivity|].
  destruct c as [s| | |]; simpl; try exact IH.
  destruct (String.eqb s "") eqn:E; simpl; [now rewrite E|exact IH].
Qed.

Example classNames_mixed :
  ClassUtil.classNames
    [ClassUtil.CString "btn"; ClassUtil.CFalse; ClassUtil.CString "";
     ClassUtil.CNull; ClassUtil.CString "btn-primary"; ClassUtil.CUndefined]
  = "btn btn-primary".
Proof. reflexivity. Qed.

(** The falsy arguments are those that [Boolean] maps to [false]. *)
Lemma falsy_Boolean (c : ClassUtil.ClassValue) :
  ClassUtil.falsy c = negb (JS.Boolean (ClassUtil.to_value c)).
Proof. destruct c as [s| | |]; simpl; [|reflexivity..]. now rewrite negb_involutive. Qed.

(** C8.  [classNames], and [cx] with it, returns the truthy arguments, that
    is the non-empty strings, in their order with one space between two
    neighbours; a falsy argument ([false], [null], [undefined] or the empty
    string) contributes nothing, not even a separator, wherever it stands;
    a list of falsy arguments, the empty list included, gives the empty
    string. *)
Theorem classNames_joins_truthy :
  forall classes : list ClassUtil.ClassValue,
    ClassUtil.classNames classes
    = String.concat " " (ClassUtil.truthy_strings classes)
    /\ ClassUtil.cx classes = ClassUtil.classNames classes
    /\ (forall (before after : list ClassUtil.ClassValue) (c : ClassUtil.ClassValue),
           classes = before ++ c :: after -> ClassUtil.falsy c = true ->
           ClassUtil.classNames classes = ClassUtil.classNames (before ++ after))
    /\ ClassUtil.classNames (filter ClassUtil.falsy classes) = "".
Proof.
  assert (H : forall l, ClassUtil.classNames l
                        = String.concat " " (ClassUtil.truthy_strings l)).
  { intros l. unfold ClassUtil.classNames. now rewrite join_concat, truthy_filter. }
  intros classes. split; [apply H|]. split; [reflexivity|]. split.
  - intros before after c -> Hc. rewrite !H, !truthy_strings_app.
    destruct c as [s| | |]; simpl in *; try reflexivity.
    now rewrite Hc.
  - now rewrite H, truthy_strings_falsy.
Qed.

(** ** Type guards *)

(** C9.  [isNumber(v)] holds exactly when [typeof v] is ["number"] and [v]
    is not NaN; NaN has type ["number"] and is rejected. *)
Theorem isNumber_excludes_NaN :
  forall v : JS.Value,
    (TypeGuards.isNumber v = true
     <-> JS.typeof v = "number" /\ v <> JS.VNumber S754_nan)
    /\ JS.typeof (JS.VNumber S754_nan) = "number"
    /\ TypeGuards.isNumber (JS.VNumber S754_nan) = false.
Proof.
  intros v. split; [|split; reflexivity].
  unfold TypeGuards.isNumber.
  destruct v as [| |b|x|z|s|d|ps|es|n|]; simpl;
    try (split; [discriminate | intros [H _]; discriminate H]).
  destruct x; simpl; split; try (intros _; split; [reflexivity|discriminate]);
    try reflexivity; try discriminate.
  intros [_ H]. now contradiction H.
Qed.

(** C10.  No value passes both [isObject] and [isArray], and [isObject]
    rejects [null]. *)
Theorem isObject_isArray_exclusive :
  forall v : JS.Value,
    TypeGuards.isObject v && TypeGuards.isArray v = false
    /\ TypeGuards.isObject JS.VNull = false.
Proof.
  intros v. split; [|reflexivity].
  now destruct v.
Qed.

(* ================================================================== *)
(** * Further properties of the theme store *)

(** ** The document *)

Lemma exec_all_cons_result (c : Call) (cs : list Call) (w : Svelte.Writable)
      (cl : DOM.DOMTokenList) :
  result (exec_all (c :: cs) w cl)
  = result (exec_all cs (result (exec c w cl)) (classes (exec c w cl))).
Proof. now rewrite exec_all_cons. Qed.

Lemma exec_all_cons_classes (c : Call) (cs : list Call) (w : Svelte.Writable)
      (cl : DOM.DOMTokenList) :
  classes (exec_all (c :: cs) w cl)
  = classes (exec_all cs (result (exec c w cl)) (classes (exec c w cl))).
Proof. now rewrite exec_all_cons. Qed.

Lemma exec_classes (c : Call) (w : Svelte.Writable) (cl : DOM.DOMTokenList) :
  classes (exec c w cl)
  = match c with
    | CMutate m => sync (target m (Svelte.value w)) cl
    | _ => cl
    end.
Proof. destruct c as [m|cb|k]; [apply perform_classes|reflexivity|reflexivity]. Qed.

Lemma other_classes_sync (t : Theme) (cl : DOM.DOMTokenList) :
  other_classes (sync t cl) = other_classes cl.
Proof.
  unfold sync, other_classes. destruct t, (marker cl); try reflexivity.
  - unfold DOM.remove. change (Theme_value DARK) with "dark".
    induction cl as [|c cl IH]; [reflexivity|]. cbn [filter].
    destruct (negb (String.eqb "dark" c)) eqn:E; [|exact IH].
    cbn [filter]. now rewrite E, IH.
  - unfold DOM.add. destruct (DOM.contains "dark" cl); [reflexivity|].
    rewrite filter_app. cbn [filter]. rewrite String.eqb_refl. cbn [negb].
    now rewrite app_nil_r.
Qed.

(** The store writes no class but the dark one: through any sequence of
    calls the other classes of the document stay as they were, in their
    order. *)
Theorem other_classes_untouched :
  forall (cs : list Call) (w : Svelte.Writable) (cl : DOM.DOMTokenList),
    other_classes (classes (exec_all cs w cl)) = other_classes cl.
Proof.
  induction cs as [|c cs IH]; intros w cl; [reflexivity|].
  rewrite exec_all_cons_classes.
  rewrite IH, exec_classes. destruct c as [m|cb|k]; try reflexivity.
  apply other_classes_sync.
Qed.

Lemma contains_false_not_In (token : string) (l : DOM.DOMTokenList) :
  DOM.contains token l = false -> ~ In token l.
Proof.
  unfold DOM.contains. intros H Hin.
  assert (existsb (String.eqb token) l = true).
  { apply existsb_exists. exists token. split; [exact Hin|apply String.eqb_refl]. }
  congruence.
Qed.

Lemma NoDup_sync (t : Theme) (cl : DOM.DOMTokenList) :
  NoDup cl -> NoDup (sync t cl).
Proof.
  intros H. unfold sync. destruct t, (marker cl) eqn:E; try exact H.
  - unfold DOM.remove. now apply NoDup_filter.
  - unfold DOM.add. unfold marker in E. simpl Theme_value in E. rewrite E.
    apply NoDup_app; [exact H|constructor; [intros []|constructor]|].
    intros a Ha [<-|[]]. now apply (contains_false_not_In "dark" cl).
Qed.

(** The store never duplicates a class: a class list without repetition
    stays without repetition through any sequence of calls. *)
Theorem classList_stays_duplicate_free :
  forall (cs : list Call) (w : Svelte.Writable) (cl : DOM.DOMTokenList),
    NoDup cl -> NoDup (classes (exec_all cs w cl)).
Proof.
  induction cs as [|c cs IH]; intros w cl H; [exact H|].
  rewrite exec_all_cons_classes.
  apply IH. rewrite exec_classes. destruct c as [m|cb|k]; try exact H.
  now apply NoDup_sync.
Qed.

Lemma classList_stays_duplicate_free_witness :
  NoDup ["app"; "wide"]
  /\ NoDup (classes (exec_all [CMutate MToggle; CSubscribe 3; CMutate (MSet DARK)]
                              (Svelte.writable LIGHT) ["app"; "wide"])).
Proof.
  assert (H : NoDup ["app"; "wide"]).
  { constructor; [intros [E|[]]; discriminate E|].
    constructor; [intros []|constructor]. }
  split; [exact H|].
  exact (classList_stays_duplicate_free
           [CMutate MToggle; CSubscribe 3; CMutate (MSet DARK)]
           (Svelte.writable LIGHT) ["app"; "wide"] H).
Defined.

(** From its construction on, the store agrees with the document it was
    constructed on: after any sequence of calls, the empty one included,
    the dark class is present exactly when the current theme is [DARK]. *)
Theorem in_sync_from_construction :
  forall (cs : list Call) (cl : DOM.DOMTokenList),
    let o0 := ThemeStore.createThemeStore cl in
    let o := exec_all cs (result o0) (classes o0) in
    marker (classes o) = true <-> Svelte.value (result o) = DARK.
Proof.
  intros cs cl o0 o. subst o o0. apply exec_all_in_sync.
  unfold in_sync. change (classes (ThemeStore.createThemeStore cl)) with cl.
  change (Svelte.value (result (ThemeStore.createThemeStore cl)))
    with (if marker cl then DARK else LIGHT).
  destruct (marker cl); split; congruence.
Qed.

(** ** The theme *)

(** The theme after a sequence of calls is the one the mutations of the
    sequence lead to, applied in order to the starting theme; calls of
    [subscribe] and of unsubscribers have no part in it, and neither has
    the document. *)
Theorem theme_follows_mutations :
  forall (cs : list Call) (w : Svelte.Writable) (cl : DOM.DOMTokenList),
    Svelte.value (result (exec_all cs w cl))
    = final_theme (Svelte.value w) (mutations_of cs).
Proof.
  unfold final_theme.
  induction cs as [|c cs IH]; intros w cl; [reflexivity|].
  rewrite exec_all_cons_result.
  rewrite IH, exec_value. now destruct c as [m|cb|k].
Qed.

(** ** Mutations that change nothing, and those that always do *)

Lemma sync_in_sync (w : Svelte.Writable) (cl : DOM.DOMTokenList) :
  in_sync w cl -> sync (Svelte.value w) cl = cl /\ sync_writes (Svelte.value w) cl = [].
Proof.
  unfold in_sync, sync, sync_writes. intros [H1 H2].
  destruct (Svelte.value w), (marker cl); try (split; reflexivity).
  - discriminate (H1 eq_refl).
  - discriminate (H2 eq_refl).
Qed.

(** A [set], [update] or [toggle] that asks for the theme the store already
    has leaves the store as it is and neither assigns the value nor calls a
    subscriber, yet it still brings the marker in line with the theme.
    When the marker was in line already, its only event is the read of the
    class and the document is left as it was. *)
Theorem unchanged_theme_is_silent :
  forall (m : Mutation) (w : Svelte.Writable) (cl : DOM.DOMTokenList),
    target m (Svelte.value w) = Svelte.value w ->
    let o := perform m w cl in
    result o = w
    /\ filter is_store (events o) = []
    /\ marker (classes o) = is_dark (Svelte.value w)
    /\ (in_sync w cl -> o = (w, cl, [DomContains "dark" (marker cl)])).
Proof.
  intros m w cl Ht o. subst o. rewrite perform_run. cbv zeta. rewrite Ht.
  unfold result, classes, events. cbn [fst snd].
  rewrite with_value_same.
  assert (Hs : store_events w (Svelte.value w) (sync (Svelte.value w) cl) = []).
  { unfold store_events. now rewrite safe_not_equal_refl. }
  rewrite Hs, app_nil_r. repeat split.
  - simpl. unfold sync_writes. now destruct (Svelte.value w), (marker cl).
  - apply marker_sync.
  - intros Hsync. destruct (sync_in_sync w cl Hsync) as [-> ->]. reflexivity.
Qed.

Lemma unchanged_theme_is_silent_witness :
  target (MUpdate (fun t => t)) (Svelte.value (one_subscriber DARK))
  = Svelte.value (one_subscriber DARK)
  /\ result (perform (MUpdate (fun t => t)) (one_subscriber DARK) ["app"])
     = one_subscriber DARK
  /\ filter is_store
       (events (perform (MUpdate (fun t => t)) (one_subscriber DARK) ["app"])) = []
  /\ marker (classes (perform (MUpdate (fun t => t)) (one_subscriber DARK) ["app"]))
     = true.
Proof.
  split; [reflexivity|].
  pose proof (unchanged_theme_is_silent (MUpdate (fun t => t)) (one_subscriber DARK)
                ["app"] eq_refl) as H.
  cbv zeta in H. destruct H as (H1 & H2 & H3 & _).
  split; [exact H1|]. split; [exact H2|exact H3].
Defined.

(** [toggle()] is never silent: it always changes the theme, and every
    subscriber is notified with the new theme, once, in the order of the
    subscriber set. *)
Theorem toggle_always_notifies :
  forall (w : Svelte.Writable) (cl : DOM.DOMTokenList),
    well_formed w ->
    let o := ThemeStore.toggle w cl in
    Svelte.value (result o) <> Svelte.value w
    /\ notifications (events o) = notify_all w (Svelte.value (result o)).
Proof.
  intros w cl Hwf o. subst o.
  change (ThemeStore.toggle w cl) with (perform MToggle w cl).
  rewrite perform_value, perform_events.
  set (v := target MToggle (Svelte.value w)).
  assert (Hne : Svelte.safe_not_equal (Svelte.value w) v = true).
  { subst v. simpl. now destruct (Svelte.value w). }
  split.
  - intros Heq. rewrite Heq, safe_not_equal_refl in Hne. discriminate.
  - rewrite notifications_app. simpl. rewrite notifications_sync_writes. simpl.
    rewrite (notifications_store_events w v _ Hwf). now rewrite Hne.
Qed.

Lemma toggle_always_notifies_witness :
  well_formed (one_subscriber DARK)
  /\ notifications (events (ThemeStore.toggle (one_subscriber DARK) ["dark"]))
     = [(0, 7, LIGHT)].
Proof.
  split; [apply one_subscriber_well_formed|].
  exact (proj2 (toggle_always_notifies (one_subscriber DARK) ["dark"]
                  (one_subscriber_well_formed DARK))).
Defined.

(** ** Writes to the document *)

Lemma filter_perform_writes (m : Mutation) (w : Svelte.Writable)
      (cl : DOM.DOMTokenList) :
  filter is_dom_write (events (perform m w cl))
  = sync_writes (target m (Svelte.value w)) cl.
Proof.
  rewrite perform_events, filter_app. simpl.
  assert (Hs : forall v c, filter is_dom_write (store_events w v c) = []).
  { intros v c. unfold store_events.
    destruct (Svelte.safe_not_equal _ _); [|reflexivity]. simpl.
    destruct (Svelte.stop w); [|reflexivity].
    induction (Svelte.subscribers w) as [|s subs IH]; simpl; [reflexivity|exact IH]. }
  rewrite Hs, app_nil_r.
  unfold sync_writes. now destruct (target m (Svelte.value w)), (marker cl).
Qed.

Lemma sync_writes_from_sync (w : Svelte.Writable) (v : Theme) (cl : DOM.DOMTokenList) :
  in_sync w cl ->
  List.length (sync_writes v cl)
  = if Svelte.safe_not_equal (Svelte.value w) v then 1 else 0.
Proof.
  unfold in_sync, sync_writes. intros [H1 H2].
  destruct (Svelte.value w) eqn:Ev, v, (marker cl) eqn:Em; try reflexivity;
    try discriminate (H1 eq_refl); try discriminate (H2 eq_refl).
Qed.

(** Starting with the marker in line with the theme, a sequence of calls
    writes to the document once for each change of the theme, and not
    otherwise. *)
Theorem one_write_per_change :
  forall (cs : list Call) (w : Svelte.Writable) (cl : DOM.DOMTokenList),
    in_sync w cl ->
    List.length (filter is_dom_write (events (exec_all cs w cl)))
    = List.length (changes (Svelte.value w) (mutations_of cs)).
Proof.
  induction cs as [|c cs IH]; intros w cl Hsync; [reflexivity|].
  rewrite exec_all_cons_events, filter_app, length_app.
  rewrite (IH _ _ (exec_in_sync c w cl Hsync)), exec_value.
  destruct c as [m|cb|k]; try reflexivity.
  simpl exec. rewrite filter_perform_writes.
  rewrite (sync_writes_from_sync w _ cl Hsync). simpl.
  now destruct (Svelte.safe_not_equal _ _).
Qed.

Lemma one_write_per_change_witness :
  in_sync (one_subscriber LIGHT) ["app"]
  /\ List.length
       (filter is_dom_write
          (events (exec_all [CMutate MToggle; CMutate (MSet DARK); CMutate MToggle]
                            (one_subscriber LIGHT) ["app"])))
     = 2.
Proof.
  assert (H : in_sync (one_subscriber LIGHT) ["app"]).
  { unfold in_sync. split; intros E; discriminate E. }
  split; [exact H|].
  exact (one_write_per_change [CMutate MToggle; CMutate (MSet DARK); CMutate MToggle]
           (one_subscriber LIGHT) ["app"] H).
Defined.

(** ** Registrations *)

(** Calls of [subscribe] and of unsubscribers never touch the document or
    the theme: the class list and the current theme come out as they went
    in, the trace holds nothing but invocations of callbacks, and these are
    one per [subscribe], in order, each handing the unchanged current theme
    to the callback just subscribed. *)
Theorem registrations_leave_document_and_theme :
  forall (cs : list Call) (w : Svelte.Writable) (cl : DOM.DOMTokenList),
    forallb is_registration cs = true ->
    let o := exec_all cs w cl in
    classes o = cl
    /\ Svelte.value (result o) = Svelte.value w
    /\ forallb is_run (events o) = true
    /\ map (fun n => (snd (fst n), snd n)) (notifications (events o))
       = map (fun cb => (cb, Svelte.value w)) (subscribed cs).
Proof.
  induction cs as [|c cs IH]; intros w cl Hreg o; subst o.
  - repeat split.
  - simpl in Hreg. apply andb_true_iff in Hreg. destruct Hreg as [Hc Hcs].
    rewrite exec_all_cons_classes, exec_all_cons_result, exec_all_cons_events.
    specialize (IH (result (exec c w cl)) (classes (exec c w cl)) Hcs).
    cbv zeta in IH. destruct IH as (IH1 & IH2 & IH3 & IH4).
    rewrite IH1, IH2, forallb_app, IH3, notifications_app, map_app, IH4.
    destruct c as [m|cb|k]; [discriminate Hc| |]; repeat split.
Qed.

Lemma registrations_leave_document_and_theme_witness :
  forallb is_registration [CSubscribe 4; CUnsubscribe 0; CSubscribe 5] = true
  /\ events (exec_all [CSubscribe 4; CUnsubscribe 0; CSubscribe 5]
                      (one_subscriber DARK) ["dark"])
     = [Run 1 4 DARK ["dark"]; Run 2 5 DARK ["dark"]]
  /\ classes (exec_all [CSubscribe 4; CUnsubscribe 0; CSubscribe 5]
                       (one_subscriber DARK) ["dark"]) = ["dark"].
Proof.
  split; [reflexivity|]. split; [reflexivity|].
  exact (proj1 (registrations_leave_document_and_theme
                  [CSubscribe 4; CUnsubscribe 0; CSubscribe 5]
                  (one_subscriber DARK) ["dark"] eq_refl)).
Defined.

Lemma delete_absent_key (key : nat) (subs : list Svelte.Subscriber) :
  ~ In key (map Svelte.sub_key subs) ->
  filter (fun s => negb (Nat.eqb (Svelte.sub_key s) key)) subs = subs.
Proof.
  induction subs as [|s subs IH]; intros H; [reflexivity|]. cbn [filter].
  destruct (Nat.eqb (Svelte.sub_key s) key) eqn:E.
  - apply Nat.eqb_eq in E. exfalso. apply H. now left.
  - cbn [negb]. rewrite IH; [reflexivity|]. intros Hin. apply H. now right.
Qed.

(** Calling an unsubscriber again changes nothing, and on a well-formed
    store an unsubscriber whose registration is not there changes
    nothing. *)
Theorem unsubscribe_idempotent :
  forall (key : nat) (w : Svelte.Writable),
    Svelte.unsubscribe key (Svelte.unsubscribe key w) = Svelte.unsubscribe key w
    /\ (well_formed w -> ~ registered key w -> Svelte.unsubscribe key w = w).
Proof.
  intros key w. split.
  - unfold Svelte.unsubscribe at 1. cbn [Svelte.value Svelte.subscribers Svelte.stop
                                          Svelte.next_key Svelte.unsubscribe].
    rewrite (delete_absent_key key (filter _ (Svelte.subscribers w))).
    + unfold Svelte.unsubscribe. f_equal.
      destruct (Nat.eqb (List.length (filter _ (Svelte.subscribers w))) 0);
        destruct (Svelte.stop w); reflexivity.
    + apply (unsubscribe_removes key w).
  - intros (_ & _ & Hstop) Hreg. destruct w as [v subs st nk].
    unfold registered in Hreg. unfold Svelte.unsubscribe. simpl in *.
    rewrite (delete_absent_key key subs Hreg). f_equal.
    destruct subs as [|s subs]; [|reflexivity].
    simpl. destruct st; [|reflexivity].
    exfalso. now apply (proj1 Hstop).
Qed.

(** [subscribe] followed by the unsubscriber it returned leaves the store
    as it was, up to the allocator of registrations: same theme, same
    subscribers, started or not as before. *)
Theorem subscribe_unsubscribe_round_trip :
  forall (cb : Callback) (w : Svelte.Writable) (cl : DOM.DOMTokenList),
    well_formed w ->
    let r := result (ThemeStore.subscribe cb w cl) in
    Svelte.unsubscribe (snd r) (fst r)
    = {| Svelte.value := Svelte.value w;
         Svelte.subscribers := Svelte.subscribers w;
         Svelte.stop := Svelte.stop w;
         Svelte.next_key := S (Svelte.next_key w) |}.
Proof.
  intros cb w cl (Hnd & Hlt & Hstop) r. subst r.
  unfold Svelte.unsubscribe. simpl.
  rewrite filter_app. simpl. rewrite Nat.eqb_refl. simpl. rewrite app_nil_r.
  rewrite delete_absent_key.
  - f_equal. rewrite length_app. simpl.
    destruct (Svelte.subscribers w) as [|s subs] eqn:E; simpl.
    + destruct (Svelte.stop w) eqn:Es; [|reflexivity].
      exfalso. now apply (proj1 Hstop).
    + replace (Nat.eqb (List.length subs + 1) 0) with false
        by (symmetry; apply Nat.eqb_neq; lia).
      reflexivity.
  - intros Hin. apply in_map_iff in Hin. destruct Hin as (s & Hs & Hin).
    rewrite Forall_forall in Hlt. specialize (Hlt s Hin). simpl in Hlt. lia.
Qed.

Lemma subscribe_unsubscribe_round_trip_witness :
  well_formed (one_subscriber LIGHT)
  /\ Svelte.subscribers
       (Svelte.unsubscribe
          (snd (result (ThemeStore.subscribe 9 (one_subscriber LIGHT) [])))
          (fst (result (ThemeStore.subscribe 9 (one_subscriber LIGHT) []))))
     = Svelte.subscribers (one_subscriber LIGHT).
Proof.
  split; [apply one_subscriber_well_formed|].
  exact (f_equal Svelte.subscribers
           (subscribe_unsubscribe_round_trip 9 (one_subscriber LIGHT) []
              (one_subscriber_well_formed LIGHT))).
Defined.

(** ** Order and repetition of notifications *)

Lemma callbacks_after_subscribes (cbs : list Callback) :
  forall (w : Svelte.Writable) (cl : DOM.DOMTokenList),
    map Svelte.sub_run
        (Svelte.subscribers (result (exec_all (map CSubscribe cbs) w cl)))
    = map Svelte.sub_run (Svelte.subscribers w) ++ cbs.
Proof.
  induction cbs as [|cb cbs IH]; intros w cl.
  - simpl. now rewrite app_nil_r.
  - simpl map at 2. rewrite exec_all_cons_result, IH. simpl.
    now rewrite map_app, <- app_assoc.
Qed.

Lemma theme_value_after_subscribes (cbs : list Callback) :
  forall (w : Svelte.Writable) (cl : DOM.DOMTokenList),
    Svelte.value (result (exec_all (map CSubscribe cbs) w cl)) = Svelte.value w.
Proof.
  induction cbs as [|cb cbs IH]; intros w cl; [reflexivity|].
  simpl map. now rewrite exec_all_cons_result, IH.
Qed.

(** Subscribers are notified in the order in which they subscribed: when
    callbacks are subscribed one after the other and the theme then
    changes, the callbacks called are those the store had before, in their
    order, followed by the new ones in the order of their subscription. *)
Theorem notified_in_subscription_order :
  forall (cbs : list Callback) (m : Mutation) (w : Svelte.Writable)
         (cl cl' : DOM.DOMTokenList),
    well_formed w ->
    target m (Svelte.value w) <> Svelte.value w ->
    let w' := result (exec_all (map CSubscribe cbs) w cl) in
    map (fun n => snd (fst n)) (notifications (events (perform m w' cl')))
    = map Svelte.sub_run (Svelte.subscribers w) ++ cbs.
Proof.
  intros cbs m w cl cl' Hwf Hne w'.
  assert (Hwf' : well_formed w') by now apply exec_all_well_formed.
  assert (Hv : Svelte.value w' = Svelte.value w).
  { subst w'. rewrite theme_value_after_subscribes. reflexivity. }
  rewrite perform_events, notifications_app. simpl.
  rewrite notifications_sync_writes. simpl.
  rewrite (notifications_store_events w' _ _ Hwf'), Hv.
  destruct (Svelte.safe_not_equal _ _) eqn:E.
  - unfold notify_all. rewrite map_map. simpl.
    apply callbacks_after_subscribes.
  - apply safe_not_equal_false in E. now contradiction Hne.
Qed.

Lemma notified_in_subscription_order_witness :
  well_formed (one_subscriber LIGHT)
  /\ target (MSet DARK) (Svelte.value (one_subscriber LIGHT))
     <> Svelte.value (one_subscriber LIGHT)
  /\ map (fun n => snd (fst n))
         (notifications
            (events
               (perform (MSet DARK)
                  (result (exec_all (map CSubscribe [5; 3; 4]) (one_subscriber LIGHT) []))
                  [])))
     = [7; 5; 3; 4].
Proof.
  assert (H : target (MSet DARK) (Svelte.value (one_subscriber LIGHT))
              <> Svelte.value (one_subscriber LIGHT)) by discriminate.
  split; [apply one_subscriber_well_formed|]. split; [exact H|].
  exact (notified_in_subscription_order [5; 3; 4] (MSet DARK) (one_subscriber LIGHT)
           [] [] (one_subscriber_well_formed LIGHT) H).
Defined.

Lemma no_repeat_changes (ms : list Mutation) :
  forall v : Theme, no_repeat v (changes v ms) = true.
Proof.
  induction ms as [|m ms IH]; intros v; [reflexivity|]. simpl.
  generalize (target m v). intros v'.
  destruct (Svelte.safe_not_equal v v') eqn:E.
  - simpl. rewrite IH, andb_true_r.
    destruct v, v'; try reflexivity; discriminate E.
  - apply safe_not_equal_false in E. subst v'. apply IH.
Qed.

(** A registration is never handed the same theme twice in a row: through
    any calls that leave it in place, each value it is handed differs from
    the one before, and the first differs from the theme the store had
    when the calls began. *)
Theorem no_repeated_notification :
  forall (key : nat) (cs : list Call) (w : Svelte.Writable) (cl : DOM.DOMTokenList),
    well_formed w -> registered key w -> forallb (keeps key) cs = true ->
    no_repeat (Svelte.value w) (deliveries key (events (exec_all cs w cl))) = true.
Proof.
  intros key cs w cl Hwf Hreg Hk.
  rewrite (deliveries_while_registered key cs w cl Hwf Hreg Hk).
  apply no_repeat_changes.
Qed.

Lemma no_repeated_notification_witness :
  well_formed (one_subscriber LIGHT)
  /\ registered 0 (one_subscriber LIGHT)
  /\ no_repeat LIGHT
       (deliveries 0
          (events (exec_all [CMutate (MSet LIGHT); CMutate MToggle; CMutate (MSet DARK);
                             CSubscribe 2; CMutate (MUpdate (fun _ => LIGHT))]
                            (one_subscriber LIGHT) [])))
     = true.
Proof.
  assert (H : registered 0 (one_subscriber LIGHT)) by (left; reflexivity).
  split; [apply one_subscriber_well_formed|]. split; [exact H|].
  exact (no_repeated_notification 0
           [CMutate (MSet LIGHT); CMutate MToggle; CMutate (MSet DARK);
            CSubscribe 2; CMutate (MUpdate (fun _ => LIGHT))]
           (one_subscriber LIGHT) [] (one_subscriber_well_formed LIGHT) H eq_refl).
Defined.

(* ================================================================== *)
(** * Further properties of [classNames] *)

Lemma classNames_truthy (classes : list ClassUtil.ClassValue) :
  ClassUtil.classNames classes
  = String.concat " " (ClassUtil.truthy_strings classes).
Proof. unfold ClassUtil.classNames. now rewrite join_concat, truthy_filter. Qed.

Lemma truthy_strings_nonempty (classes : list ClassUtil.ClassValue) :
  Forall (fun s => String.eqb s "" = false) (ClassUtil.truthy_strings classes).
Proof.
  induction classes as [|c classes IH]; [constructor|].
  destruct c as [s| | |]; simpl; try exact IH.
  destruct (String.eqb s "") eqn:E; [exact IH|now constructor].
Qed.

Lemma append_nonempty (x y : string) :
  String.eqb x "" = false -> String.eqb (String.append x y) "" = false.
Proof. destruct x as [|a x]; [discriminate|reflexivity]. Qed.

Lemma prefixed_app (separator : string) (l1 l2 : list string) :
  prefixed separator (l1 ++ l2)
  = String.append (prefixed separator l1) (prefixed separator l2).
Proof.
  induction l1 as [|x l1 IH]; [reflexivity|]. simpl.
  now rewrite IH, !append_assoc.
Qed.

Lemma concat_nonempty (separator : string) (l : list string) :
  Forall (fun s => String.eqb s "" = false) l ->
  String.eqb (String.concat separator l) "" = (match l with [] => true | _ => false end).
Proof.
  intros H. destruct H as [|x l Hx Hl]; [reflexivity|].
  rewrite concat_cons. now apply append_nonempty.
Qed.

Lemma concat_app_glue (l1 l2 : list string) :
  Forall (fun s => String.eqb s "" = false) l1 ->
  Forall (fun s => String.eqb s "" = false) l2 ->
  String.concat " " (l1 ++ l2)
  = glue (String.concat " " l1) (String.concat " " l2).
Proof.
  intros H1 H2. unfold glue.
  rewrite (concat_nonempty " " l1 H1), (concat_nonempty " " l2 H2).
  destruct l1 as [|x xs]; [reflexivity|].
  destruct l2 as [|y ys]; [now rewrite app_nil_r|].
  change ((x :: xs) ++ y :: ys) with (x :: (xs ++ y :: ys)).
  rewrite !concat_cons, prefixed_app. simpl prefixed at 2.
  now rewrite !append_assoc.
Qed.

Lemma classNames_append (a b : list ClassUtil.ClassValue) :
  ClassUtil.classNames (a ++ b)
  = glue (ClassUtil.classNames a) (ClassUtil.classNames b).
Proof.
  rewrite !classNames_truthy, truthy_strings_app.
  apply concat_app_glue; apply truthy_strings_nonempty.
Qed.

Lemma classNames_single (s : string) :
  ClassUtil.classNames [ClassUtil.CString s] = s.
Proof.
  rewrite classNames_truthy. simpl.
  destruct (String.eqb s "") eqn:E; [|reflexivity].
  apply String.eqb_eq in E. now subst s.
Qed.

(** [classNames] composes.  The class string of two argument lists put
    end to end is the two class strings with one space between them, or
    the other one when one of them is empty.  And results of [classNames]
    can be passed to [classNames]: on the class strings of several
    argument lists it returns what it returns on all their arguments in
    one list. *)
Theorem classNames_composes :
  (forall a b : list ClassUtil.ClassValue,
      ClassUtil.classNames (a ++ b)
      = glue (ClassUtil.classNames a) (ClassUtil.classNames b))
  /\ (forall ls : list (list ClassUtil.ClassValue),
         ClassUtil.classNames
           (map (fun l => ClassUtil.CString (ClassUtil.classNames l)) ls)
         = ClassUtil.classNames (List.concat ls)).
Proof.
  split; [exact classNames_append|].
  induction ls as [|l ls IH]; [reflexivity|].
  simpl map. simpl List.concat.
  change (ClassUtil.CString (ClassUtil.classNames l) :: ?r)
    with ([ClassUtil.CString (ClassUtil.classNames l)] ++ r).
  now rewrite !classNames_append, classNames_single, IH.
Qed.

Example classNames_nested :
  ClassUtil.cx
    [ClassUtil.CString (ClassUtil.cx [ClassUtil.CString "a"; ClassUtil.CFalse]);
     ClassUtil.CString (ClassUtil.cx [ClassUtil.CNull]);
     ClassUtil.CString (ClassUtil.cx [ClassUtil.CString "b"; ClassUtil.CString "c"])]
  = "a b c".
Proof. reflexivity. Qed.

Lemma all_falsy_truthy_nil (classes : list ClassUtil.ClassValue) :
  forallb ClassUtil.falsy classes = true
  <-> ClassUtil.truthy_strings classes = [].
Proof.
  induction classes as [|c classes IH]; [now split|].
  destruct c as [s| | |]; simpl; try exact IH.
  destruct (String.eqb s ""); simpl; [exact IH|split; discriminate].
Qed.

(** [classNames] returns the empty string exactly when every argument is
    falsy. *)
Theorem classNames_empty_iff_all_falsy :
  forall classes : list ClassUtil.ClassValue,
    ClassUtil.classNames classes = ""
    <-> forallb ClassUtil.falsy classes = true.
Proof.
  intros classes. rewrite classNames_truthy.
  pose proof (concat_nonempty " " _ (truthy_strings_nonempty classes)) as H.
  rewrite all_falsy_truthy_nil. destruct (ClassUtil.truthy_strings classes) as [|x xs].
  - now split.
  - split; [|discriminate]. intros Heq. rewrite Heq in H. discriminate H.
Qed.

(* ================================================================== *)
(** * Further properties of the type guards *)


(** [isEmptyString] accepts the empty string and nothing else. *)
Theorem isEmptyString_only_empty :
  forall v : JS.Value,
    TypeGuards.isEmptyString v = true <-> v = JS.VString "".
Proof.
  intros v. destruct v as [| |b|x|z|s|d|ps|es|n|];
    try (split; intros H; discriminate H).
  destruct s as [|a s]; split; intros H; try reflexivity; discriminate H.
Qed.

Lemma every_present (callbackfn : JS.Value -> bool) (slots : list (option JS.Value)) :
  JS.every callbackfn slots = true
  <-> forall (k : nat) (element : JS.Value),
        nth_error slots k = Some (Some element) -> callbackfn element = true.
Proof.
  unfold JS.every. rewrite forallb_forall. split.
  - intros H k element Hk. apply (H (Some element)). now apply nth_error_In with k.
  - intros H [element|] Hin; [|reflexivity].
    apply In_nth_error in Hin. destruct Hin as (k & Hk). now apply (H k).
Qed.

(** [isArrayOfType(v, isType)] holds exactly when [v] is an array whose
    present elements all pass [isType].  Holes are skipped: an array of
    holes only, such as [new Array(n)], passes whatever [isType] is, also
    when [isType] rejects the [undefined] that reading its indices gives.
    On an array without holes, passing means that every index below the
    length reads an element that passes [isType].  A value that is not an
    array never passes. *)
Theorem isArrayOfType_skips_holes :
  forall (v : JS.Value) (isType : JS.Value -> bool),
    (TypeGuards.isArrayOfType v isType = true
     <-> exists slots : list (option JS.Value),
           v = JS.VArray slots
           /\ forall (k : nat) (element : JS.Value),
                nth_error slots k = Some (Some element) -> isType element = true)
    /\ (forall n k : nat,
           TypeGuards.isArrayOfType (JS.VArray (repeat None n)) isType = true
           /\ JS.get_index (repeat None n) k = JS.VUndefined)
    /\ (forall elements : list JS.Value,
           TypeGuards.isArrayOfType (JS.VArray (map Some elements)) isType = true ->
           forall k : nat,
             k < List.length elements ->
             isType (JS.get_index (map Some elements) k) = true)
    /\ (TypeGuards.isArray v = false -> TypeGuards.isArrayOfType v isType = false).
Proof.
  intros v isType. split; [|split; [|split]].
  - destruct v as [| |b|x|z|s|d|ps|es|n|];
      try (split; [intros H; discriminate H | intros (e & H & _); discriminate H]).
    unfold TypeGuards.isArrayOfType, TypeGuards.isArray.
    cbn [JS.Array_isArray andb]. rewrite every_present. split.
    + intros H. now exists es.
    + intros (slots & Heq & H). injection Heq as <-. exact H.
  - intros n k. split.
    + unfold TypeGuards.isArrayOfType, TypeGuards.isArray.
      cbn [JS.Array_isArray andb]. apply every_present.
      intros j element Hj. apply nth_error_In in Hj.
      apply repeat_spec in Hj. discriminate Hj.
    + unfold JS.get_index. destruct (nth_error (repeat None n) k) as [slot|] eqn:E;
        [|reflexivity].
      apply nth_error_In in E. apply repeat_spec in E. now subst slot.
  - unfold TypeGuards.isArrayOfType, TypeGuards.isArray.
    cbn [JS.Array_isArray andb]. intros elements H k Hk.
    rewrite every_present in H. unfold JS.get_index.
    destruct (nth_error (map Some elements) k) as [slot|] eqn:E.
    + destruct slot as [element|].
      * now apply (H k).
      * apply nth_error_In in E. apply in_map_iff in E.
        destruct E as (x & Hx & _). discriminate Hx.
    + apply nth_error_None in E. rewrite length_map in E. lia.
  - intros H. unfold TypeGuards.isArrayOfType. now rewrite H.
Qed.

Example isArrayOfType_sparse :
  TypeGuards.isArrayOfType
    (JS.VArray [None; Some (JS.VNumber (S754_finite false 1 0))]) TypeGuards.isNumber
  = true
  /\ TypeGuards.isNumber
       (JS.get_index [None; Some (JS.VNumber (S754_finite false 1 0))] 0)
     = false.
Proof. split; reflexivity. Qed.

(** Checking an array against two element guards at once is checking it
    against each: [isArrayOfType] with the conjunction of two guards is the
    conjunction of [isArrayOfType] with each. *)
Theorem isArrayOfType_conjunction :
  forall (v : JS.Value) (p q : JS.Value -> bool),
    TypeGuards.isArrayOfType v (fun element => p element && q element)
    = TypeGuards.isArrayOfType v p && TypeGuards.isArrayOfType v q.
Proof.
  intros v p q. destruct v as [| |b|x|z|s|d|ps|es|n|]; try reflexivity.
  unfold TypeGuards.isArrayOfType, TypeGuards.isArray, JS.every.
  cbn [JS.Array_isArray andb].
  induction es as [|slot es IH]; [reflexivity|]. cbn [forallb]. rewrite IH.
  clear IH. destruct slot as [e|]; [|reflexivity].
  destruct (p e), (q e); cbn [andb]; try reflexivity.
  now rewrite andb_false_r.
Qed.

(* ================================================================== *)
(** * Subscribers that call back into the store *)

(** ** Observers: the machine does what the plain store does *)

Lemma trace_after (es : list Event)
      (o : Reentrant.Ending * Reentrant.Machine * list Event) :
  Reentrant.after es o
  = (Reentrant.ending o, Reentrant.machine o, es ++ Reentrant.trace o).
Proof. now destruct o as [[e m] es']. Qed.

Lemma steps_nil (b : Reentrant.Behaviour) (fuel : nat) (m : Reentrant.Machine) :
  Reentrant.steps b fuel [] m = (Reentrant.Returned, m, []).
Proof. now destruct fuel. Qed.

Lemma mutate_run (v : Theme) (m : Reentrant.Machine) :
  Reentrant.mutate v m
  = (let '(m', more, es) :=
       Reentrant.writable_set v
         {| Reentrant.store := Reentrant.store m;
            Reentrant.subscriber_queue := Reentrant.subscriber_queue m;
            Reentrant.document := sync v (Reentrant.document m) |} in
     (m', more,
      (DomContains "dark" (marker (Reentrant.document m))
         :: sync_writes v (Reentrant.document m)) ++ es)).
Proof. unfold Reentrant.mutate. now rewrite updateClass_run. Qed.

Lemma steps_mutation (b : Reentrant.Behaviour) (mu : Mutation) (fuel : nat)
      (rest : list Reentrant.Task) (m : Reentrant.Machine) :
  Reentrant.steps b (S fuel) (Reentrant.TDo (Reentrant.action_of (CMutate mu)) :: rest) m
  = (let '(m', more, es) :=
       Reentrant.mutate (target mu (Svelte.value (Reentrant.store m))) m in
     Reentrant.after es (Reentrant.steps b fuel (more ++ rest) m')).
Proof.
  destruct mu as [t|f|]; try reflexivity.
  cbn [Reentrant.action_of Reentrant.steps target].
  now destruct (Svelte.value (Reentrant.store m)).
Qed.

Lemma steps_loop_passive (b : Reentrant.Behaviour) :
  Reentrant.passive b ->
  forall (suffix prefix : list (Svelte.Subscriber * Theme)) (fuel : nat)
         (m : Reentrant.Machine),
    Reentrant.subscriber_queue m = prefix ++ suffix ->
    2 * List.length suffix + 1 <= fuel ->
    Reentrant.steps b fuel [Reentrant.TLoop (List.length prefix)] m
    = (Reentrant.Returned,
       {| Reentrant.store := Reentrant.store m;
          Reentrant.subscriber_queue := [];
          Reentrant.document := Reentrant.document m |},
       map (fun e => Run (Svelte.sub_key (fst e)) (Svelte.sub_run (fst e)) (snd e)
                         (Reentrant.document m))
           suffix).
Proof.
  intros Hb. induction suffix as [|[s v] suffix IH]; intros prefix fuel m Hq Hf.
  - destruct fuel as [|fuel]; [simpl in Hf; lia|].
    cbn [Reentrant.steps]. rewrite Hq, app_nil_r.
    rewrite (proj2 (nth_error_None prefix (List.length prefix)) (le_n _)).
    destruct fuel; reflexivity.
  - destruct fuel as [|[|fuel]]; [simpl in Hf; lia|simpl in Hf; lia|].
    cbn [Reentrant.steps]. rewrite Hq.
    rewrite nth_error_app2 by lia. rewrite Nat.sub_diag. cbn [nth_error].
    rewrite Hb. cbn [map app].
    replace (S (List.length prefix)) with (List.length (prefix ++ [(s, v)]))
      by (rewrite length_app; simpl; lia).
    rewrite (IH (prefix ++ [(s, v)]) fuel m).
    + reflexivity.
    + now rewrite <- app_assoc.
    + simpl in Hf. lia.
Qed.

Lemma call_mutation_passive (b : Reentrant.Behaviour) (mu : Mutation)
      (w : Svelte.Writable) (cl : DOM.DOMTokenList) (fuel : nat) :
  Reentrant.passive b -> Reentrant.enough w 0 <= fuel ->
  Reentrant.call b fuel (CMutate mu) (Reentrant.at_rest w cl)
  = (Reentrant.Returned,
     Reentrant.at_rest (result (perform mu w cl)) (classes (perform mu w cl)),
     events (perform mu w cl)).
Proof.
  intros Hb Hf. unfold Reentrant.enough in Hf.
  destruct fuel as [|fuel]; [lia|].
  unfold Reentrant.call. rewrite steps_mutation, mutate_run, perform_run.
  cbn [Reentrant.at_rest Reentrant.store Reentrant.document
       Reentrant.subscriber_queue].
  set (v := target mu (Svelte.value w)).
  unfold result, classes, events. cbn [fst snd].
  unfold Reentrant.writable_set, store_events, with_value.
  cbn [Reentrant.store Reentrant.document Reentrant.subscriber_queue
       Svelte.stop Svelte.subscribers].
  destruct (Svelte.safe_not_equal (Svelte.value w) v) eqn:E.
  - destruct (Svelte.stop w) eqn:Es.
    + cbn [app]. rewrite trace_after.
      rewrite (steps_loop_passive b Hb
                 (map (fun s => (s, v)) (Svelte.subscribers w)) [] fuel).
      * unfold Reentrant.ending, Reentrant.machine, Reentrant.trace.
        cbn [fst snd Reentrant.store Reentrant.document]. unfold Reentrant.at_rest.
        rewrite map_map. cbn [fst snd]. f_equal. simpl.
        now rewrite <- app_assoc.
      * reflexivity.
      * rewrite length_map. lia.
    + cbn [app]. rewrite steps_nil. unfold Reentrant.after, Reentrant.at_rest.
      now rewrite app_nil_r.
  - apply safe_not_equal_false in E. cbn [app].
    rewrite steps_nil. unfold Reentrant.after, Reentrant.at_rest.
    rewrite !app_nil_r. rewrite <- E. now destruct w.
Qed.

Lemma call_passive (b : Reentrant.Behaviour) (c : Call)
      (w : Svelte.Writable) (cl : DOM.DOMTokenList) (fuel : nat) :
  Reentrant.passive b -> Reentrant.enough w 0 <= fuel ->
  Reentrant.call b fuel c (Reentrant.at_rest w cl)
  = (Reentrant.Returned,
     Reentrant.at_rest (result (exec c w cl)) (classes (exec c w cl)),
     events (exec c w cl)).
Proof.
  intros Hb Hf. destruct c as [mu|cb|key].
  - now apply call_mutation_passive.
  - unfold Reentrant.enough in Hf.
    destruct fuel as [|[|fuel]]; [lia|lia|].
    unfold Reentrant.call. cbn [Reentrant.action_of Reentrant.steps].
    rewrite Hb. cbn [map app]. rewrite steps_nil. reflexivity.
  - unfold Reentrant.enough in Hf. destruct fuel as [|fuel]; [lia|].
    unfold Reentrant.call. cbn [Reentrant.action_of Reentrant.steps].
    rewrite steps_nil. reflexivity.
Qed.

Lemma exec_subscribers_length (c : Call) (w : Svelte.Writable) (cl : DOM.DOMTokenList) :
  List.length (Svelte.subscribers (result (exec c w cl)))
  <= S (List.length (Svelte.subscribers w)).
Proof.
  destruct c as [mu|cb|key].
  - simpl exec. rewrite perform_result. simpl. lia.
  - simpl. rewrite length_app. simpl. lia.
  - simpl. pose proof (filter_length_le
                         (fun s => negb (Nat.eqb (Svelte.sub_key s) key))
                         (Svelte.subscribers w)). lia.
Qed.

(** With callbacks that only observe and fuel enough, each call returns and
    the machine does, call after call, what the plain store does. *)
Lemma call_all_passive (b : Reentrant.Behaviour) (fuel : nat) (cs : list Call) :
  Reentrant.passive b ->
  forall (w : Svelte.Writable) (cl : DOM.DOMTokenList),
    Reentrant.enough w (List.length cs) <= fuel ->
    Reentrant.call_all b fuel cs (Reentrant.at_rest w cl)
    = (repeat Reentrant.Returned (List.length cs),
       Reentrant.at_rest (result (exec_all cs w cl)) (classes (exec_all cs w cl)),
       events (exec_all cs w cl)).
Proof.
  intros Hb. induction cs as [|c cs IH]; intros w cl Hf; [reflexivity|].
  cbn [Reentrant.call_all]. rewrite call_passive; [|exact Hb|].
  - rewrite IH.
    + now rewrite exec_all_cons.
    + pose proof (exec_subscribers_length c w cl).
      unfold Reentrant.enough in *. simpl List.length in Hf. lia.
  - unfold Reentrant.enough in *. simpl List.length in Hf. lia.
Qed.

(** ** The marker at the end of a run *)

Lemma machine_after (es : list Event)
      (o : Reentrant.Ending * Reentrant.Machine * list Event) :
  Reentrant.machine (Reentrant.after es o) = Reentrant.machine o.
Proof. now destruct o as [[e m] es']. Qed.

Lemma mutate_in_sync (v : Theme) (m : Reentrant.Machine) :
  in_sync (Reentrant.store (fst (fst (Reentrant.mutate v m))))
          (Reentrant.document (fst (fst (Reentrant.mutate v m)))).
Proof.
  rewrite mutate_run. unfold Reentrant.writable_set.
  cbn [Reentrant.store Reentrant.document Reentrant.subscriber_queue].
  assert (Hs : marker (sync v (Reentrant.document m)) = true <-> v = DARK).
  { rewrite marker_sync. apply is_dark_true. }
  destruct (Svelte.safe_not_equal (Svelte.value (Reentrant.store m)) v) eqn:E.
  - cbn [Svelte.stop]. destruct (Svelte.stop (Reentrant.store m)); exact Hs.
  - apply safe_not_equal_false in E. unfold in_sync. simpl. now rewrite E.
Qed.

(** Whatever the callbacks do, and however the run ends, a machine whose
    marker agrees with its theme ends with a marker that agrees with its
    theme. *)
Lemma steps_in_sync (b : Reentrant.Behaviour) (fuel : nat) :
  forall (todo : list Reentrant.Task) (m : Reentrant.Machine),
    in_sync (Reentrant.store m) (Reentrant.document m) ->
    in_sync (Reentrant.store (Reentrant.machine (Reentrant.steps b fuel todo m)))
            (Reentrant.document (Reentrant.machine (Reentrant.steps b fuel todo m))).
Proof.
  induction fuel as [|fuel IH]; intros todo m H.
  - destruct todo; exact H.
  - destruct todo as [|t rest]; [exact H|].
    destruct t as [a|s v|i].
    + destruct a as [t|f| |cb|key|]; cbn [Reentrant.steps].
      * pose proof (mutate_in_sync t m) as Hm.
        destruct (Reentrant.mutate t m) as [[m' more] es].
        rewrite machine_after. now apply IH.
      * pose proof (mutate_in_sync (f (Svelte.value (Reentrant.store m))) m) as Hm.
        destruct (Reentrant.mutate _ m) as [[m' more] es].
        rewrite machine_after. now apply IH.
      * match goal with
        | |- context [Reentrant.mutate ?v m] =>
            pose proof (mutate_in_sync v m) as Hm;
            destruct (Reentrant.mutate v m) as [[m' more] es]
        end.
        rewrite machine_after. now apply IH.
      * apply IH. exact H.
      * apply IH. exact H.
      * exact H.
    + cbn [Reentrant.steps]. rewrite machine_after. now apply IH.
    + cbn [Reentrant.steps].
      destruct (nth_error (Reentrant.subscriber_queue m) i) as [[s v]|];
        apply IH; exact H.
Qed.

(** ** Order of the effects, with callbacks of any behaviour *)

(** C6, as stated, fails for a subscriber that calls back into the store.
    Subscribers 7 and 8 watch a light store; 7 answers the dark theme by
    [set(LIGHT)].  During [toggle()], 7's call removes the dark class and
    assigns [LIGHT] before 8 is handed the queued [DARK]: 8 is handed the
    dark theme while the document no longer has the dark class, and
    accesses to the document follow the assignment of the store's value
    within the one [toggle()]. *)
Lemma reentrant_subscriber_outruns_marker :
  Reentrant.call Reentrant.sets_light_on_dark 20 (CMutate MToggle)
                 (Reentrant.at_rest (Reentrant.two_subscribers LIGHT) ["app"])
  = (Reentrant.Returned,
     Reentrant.at_rest (Reentrant.two_subscribers LIGHT) ["app"],
     [DomContains "dark" false; DomAdd "dark"; StoreAssign DARK;
      Run 0 7 DARK ["app"; "dark"];
      DomContains "dark" true; DomRemove "dark"; StoreAssign LIGHT;
      Run 1 8 DARK ["app"];
      Run 0 7 LIGHT ["app"]; Run 1 8 LIGHT ["app"]])
  /\ marker ["app"] = false
  /\ is_dark DARK = true
  /\ ~ (forall (b : Reentrant.Behaviour) (mu : Mutation) (fuel : nat)
               (w : Svelte.Writable) (cl : DOM.DOMTokenList),
           well_formed w ->
           Forall Reentrant.sees_own_marker
                  (Reentrant.trace
                     (Reentrant.call b fuel (CMutate mu) (Reentrant.at_rest w cl)))).
Proof.
  split; [reflexivity|]. split; [reflexivity|]. split; [reflexivity|].
  intros H.
  assert (Hwf : well_formed (Reentrant.two_subscribers LIGHT)).
  { unfold well_formed. simpl. repeat split.
    - constructor; [intros [E|[]]; discriminate E|].
      constructor; [intros []|constructor].
    - repeat constructor.
    - discriminate. }
  specialize (H Reentrant.sets_light_on_dark MToggle 20
                (Reentrant.two_subscribers LIGHT) ["app"] Hwf).
  rewrite Forall_forall in H.
  specialize (H (Run 1 8 DARK ["app"])).
  assert (Hin : In (Run 1 8 DARK ["app"])
                   (Reentrant.trace
                      (Reentrant.call Reentrant.sets_light_on_dark 20 (CMutate MToggle)
                         (Reentrant.at_rest (Reentrant.two_subscribers LIGHT) ["app"])))).
  { vm_compute. do 7 right. now left. }
  specialize (H Hin). vm_compute in H. discriminate H.
Qed.

(** C6, amended.  In every [set], [update] or [toggle], whatever the
    subscribers do: the call first synchronises the marker with its new
    theme, and only then assigns the store's value, its notifications
    coming after; and when the call ends the marker agrees with the current
    theme.  When no subscriber calls back into the store or throws, the
    call returns, and every notification hands over the new current theme
    to a callback that sees the class list already updated. *)
Theorem marker_synced_before_own_update :
  forall (b : Reentrant.Behaviour) (mu : Mutation) (fuel : nat)
         (m : Reentrant.Machine),
    let v := target mu (Svelte.value (Reentrant.store m)) in
    let cl := Reentrant.document m in
    let D := DomContains "dark" (marker cl) :: sync_writes v cl in
    let o := Reentrant.call b (S fuel) (CMutate mu) m in
    (exists tail : list Event,
        Reentrant.trace o
        = D ++ (if Svelte.safe_not_equal (Svelte.value (Reentrant.store m)) v
                then StoreAssign v :: tail else []))
    /\ forallb is_dom D = true
    /\ replay D cl = sync v cl
    /\ marker (sync v cl) = is_dark v
    /\ (marker (Reentrant.document (Reentrant.machine o)) = true
        <-> Svelte.value (Reentrant.store (Reentrant.machine o)) = DARK)
    /\ (Reentrant.passive b ->
        Reentrant.subscriber_queue m = [] ->
        Reentrant.enough (Reentrant.store m) 0 <= S fuel ->
        Reentrant.ending o = Reentrant.Returned
        /\ Reentrant.document (Reentrant.machine o) = sync v cl
        /\ Svelte.value (Reentrant.store (Reentrant.machine o)) = v
        /\ exists S : list Event,
            Reentrant.trace o = D ++ S
            /\ forallb is_store S = true
            /\ Forall (delivers v (sync v cl)) S).
Proof.
  intros b mu fuel m v cl D o.
  split; [|split; [|split; [|split; [|split]]]].
  - subst o. unfold Reentrant.call. rewrite steps_mutation, mutate_run.
    fold v. fold cl. unfold Reentrant.writable_set.
    cbn [Reentrant.store Reentrant.document Reentrant.subscriber_queue].
    destruct (Svelte.safe_not_equal (Svelte.value (Reentrant.store m)) v).
    + cbn [Svelte.stop].
      destruct (Svelte.stop (Reentrant.store m)); rewrite trace_after;
        unfold Reentrant.trace at 1; cbn [snd];
        eexists; rewrite <- app_assoc; reflexivity.
    + rewrite steps_nil. exists []. unfold Reentrant.after, Reentrant.trace.
      cbn [snd]. now rewrite !app_nil_r.
  - subst D. unfold sync_writes. now destruct v, (marker cl).
  - subst D. unfold sync_writes, sync. simpl. now destruct v, (marker cl).
  - apply marker_sync.
  - subst o. unfold Reentrant.call. rewrite steps_mutation.
    pose proof (mutate_in_sync v m) as Hm. fold v.
    destruct (Reentrant.mutate v m) as [[m' more] es].
    rewrite machine_after. now apply steps_in_sync.
  - intros Hb Hq Hf.
    assert (Hm : m = Reentrant.at_rest (Reentrant.store m) cl).
    { subst cl. destruct m as [w q d]. simpl in Hq. now subst q. }
    subst o. rewrite Hm, (call_mutation_passive b mu _ cl (S fuel) Hb Hf).
    unfold Reentrant.ending, Reentrant.machine, Reentrant.trace.
    cbn [fst snd Reentrant.at_rest Reentrant.store Reentrant.document].
    rewrite perform_classes, perform_value, perform_events. fold v.
    split; [reflexivity|]. split; [reflexivity|]. split; [reflexivity|].
    exists (store_events (Reentrant.store m) v (sync v cl)).
    split; [reflexivity|]. unfold store_events.
    destruct (Svelte.safe_not_equal _ _); [|split; [reflexivity|constructor]].
    destruct (Svelte.stop (Reentrant.store m)); [|split; [reflexivity|repeat constructor]].
    split.
    + simpl. induction (Svelte.subscribers (Reentrant.store m)) as [|s subs IH];
        simpl; [reflexivity|exact IH].
    + constructor; [exact I|]. apply Forall_forall. intros e He.
      apply in_map_iff in He. destruct He as (s & <- & _). now split.
Qed.

Example observers_see_updated_marker :
  Reentrant.call Reentrant.observers 8 (CMutate (MSet DARK))
                 (Reentrant.at_rest (Reentrant.two_subscribers LIGHT) ["app"])
  = (Reentrant.Returned,
     Reentrant.at_rest (Reentrant.two_subscribers DARK) ["app"; "dark"],
     [DomContains "dark" false; DomAdd "dark"; StoreAssign DARK;
      Run 0 7 DARK ["app"; "dark"]; Run 1 8 DARK ["app"; "dark"]]).
Proof. reflexivity. Qed.

(** ** The life of a registration, with callbacks of any behaviour *)

Lemma mutations_of_app (cs1 cs2 : list Call) :
  mutations_of (cs1 ++ cs2) = mutations_of cs1 ++ mutations_of cs2.
Proof.
  induction cs1 as [|c cs1 IH]; [reflexivity|].
  destruct c as [m|cb|k]; simpl; now rewrite IH.
Qed.

Lemma lifetime_events (cb : Callback) (cs cs' : list Call) (w : Svelte.Writable)
      (cl : DOM.DOMTokenList) :
  events (exec_all (CSubscribe cb :: cs ++ CUnsubscribe (Svelte.next_key w) :: cs') w cl)
  = Run (Svelte.next_key w) cb (Svelte.value w) cl
      :: events (exec_all cs (fst (result (ThemeStore.subscribe cb w cl))) cl)
      ++ events
           (exec_all cs'
              (Svelte.unsubscribe
                 (Svelte.next_key w)
                 (result (exec_all cs (fst (result (ThemeStore.subscribe cb w cl))) cl)))
              (classes (exec_all cs (fst (result (ThemeStore.subscribe cb w cl))) cl))).
Proof.
  rewrite exec_all_cons_events, exec_subscribe.
  unfold events at 1, result at 1, classes at 1. cbn [fst snd app].
  f_equal. rewrite exec_all_app. unfold events at 1. cbn [snd]. f_equal.
  now rewrite exec_all_cons_events.
Qed.

(** C7, as stated, fails in three ways.  A function subscribed twice is
    still called after the unsubscriber of one of its registrations ran
    (first trace: callback 9, registrations 0 and 1, unsubscriber 0).  An
    unsubscriber called from another subscriber's callback during a
    notification does not stop the entry already queued: subscriber 7
    unsubscribes registration 1 when handed [DARK], after four steps the
    registration is gone and has been handed nothing, and yet the run goes
    on to call it with [DARK].  And a subscriber that throws cuts off the
    others: 7 throws on [DARK], and through three changes of the theme
    the registration 1, still in place, is handed nothing. *)
Lemma subscription_contract_broken :
  Reentrant.trace
    (Reentrant.call_all Reentrant.observers 20
       [CSubscribe 9; CSubscribe 9; CUnsubscribe 0; CMutate MToggle]
       (Reentrant.at_rest (Svelte.writable LIGHT) []))
  = [Run 0 9 LIGHT []; Run 1 9 LIGHT [];
     DomContains "dark" false; DomAdd "dark"; StoreAssign DARK;
     Run 1 9 DARK ["dark"]]
  /\ (map Svelte.sub_key
          (Svelte.subscribers
             (Reentrant.store
                (Reentrant.machine
                   (Reentrant.call Reentrant.unsubscribes_other_on_dark 4
                      (CMutate MToggle)
                      (Reentrant.at_rest (Reentrant.two_subscribers LIGHT) [])))))
      = [0]
      /\ deliveries 1
           (Reentrant.trace
              (Reentrant.call Reentrant.unsubscribes_other_on_dark 4
                 (CMutate MToggle)
                 (Reentrant.at_rest (Reentrant.two_subscribers LIGHT) [])))
         = []
      /\ Reentrant.trace
           (Reentrant.call Reentrant.unsubscribes_other_on_dark 20 (CMutate MToggle)
              (Reentrant.at_rest (Reentrant.two_subscribers LIGHT) []))
         = [DomContains "dark" false; DomAdd "dark"; StoreAssign DARK;
            Run 0 7 DARK ["dark"]; Run 1 8 DARK ["dark"]])
  /\ (Reentrant.ending
        (Reentrant.call_all Reentrant.throws_on_dark 20
           [CMutate MToggle; CMutate (MSet LIGHT); CMutate (MSet DARK)]
           (Reentrant.at_rest (Reentrant.two_subscribers LIGHT) []))
      = [Reentrant.Threw; Reentrant.Returned; Reentrant.Returned]
      /\ deliveries 1
           (Reentrant.trace
              (Reentrant.call_all Reentrant.throws_on_dark 20
                 [CMutate MToggle; CMutate (MSet LIGHT); CMutate (MSet DARK)]
                 (Reentrant.at_rest (Reentrant.two_subscribers LIGHT) [])))
         = []
      /\ changes LIGHT [MToggle; MSet LIGHT; MSet DARK] = [DARK; LIGHT; DARK]
      /\ Svelte.subscribers
           (Reentrant.store
              (Reentrant.machine
                 (Reentrant.call_all Reentrant.throws_on_dark 20
                    [CMutate MToggle; CMutate (MSet LIGHT); CMutate (MSet DARK)]
                    (Reentrant.at_rest (Reentrant.two_subscribers LIGHT) []))))
         = Svelte.subscribers (Reentrant.two_subscribers LIGHT)).
Proof.
  repeat match goal with |- _ /\ _ => split end; vm_compute; reflexivity.
Qed.

(** C7, amended.  [subscribe(cb)] first of all calls [cb] with the current
    theme, whatever the callbacks do.  When no subscriber calls back into
    the store or throws, every call returns and, over the life of the
    registration (the calls up to its unsubscriber, which do not
    unsubscribe it, and any calls after), the registration is handed the
    theme at subscription time and then each change of the theme up to the
    unsubscriber, once each and in order, and nothing after it; every
    other registration that stays in place is handed every change, before
    and after; and when [cb] has no other registration, before or after,
    the same holds of the calls of [cb] itself. *)
Theorem subscription_lifetime :
  forall (b : Reentrant.Behaviour) (cb : Callback) (w : Svelte.Writable)
         (cl : DOM.DOMTokenList) (fuel : nat),
    well_formed w ->
    let key := Svelte.next_key w in
    (forall m : Reentrant.Machine,
        exists tail : list Event,
          Reentrant.trace (Reentrant.call b (S (S fuel)) (CSubscribe cb) m)
          = Run (Svelte.next_key (Reentrant.store m)) cb
                (Svelte.value (Reentrant.store m)) (Reentrant.document m)
              :: tail)
    /\ (Reentrant.passive b ->
        forall cs cs' : list Call,
          let whole := CSubscribe cb :: cs ++ CUnsubscribe key :: cs' in
          let o := Reentrant.call_all b fuel whole (Reentrant.at_rest w cl) in
          forallb (keeps key) cs = true ->
          Reentrant.enough w (List.length whole) <= fuel ->
          Reentrant.ending o = repeat Reentrant.Returned (List.length whole)
          /\ deliveries key (Reentrant.trace o)
             = Svelte.value w :: changes (Svelte.value w) (mutations_of cs)
          /\ (forall other : nat,
                 registered other w ->
                 forallb (keeps other) (cs ++ cs') = true ->
                 deliveries other (Reentrant.trace o)
                 = changes (Svelte.value w) (mutations_of (cs ++ cs')))
          /\ (fresh_callback cb w ->
              forallb (avoids cb) (cs ++ cs') = true ->
              calls_of cb (Reentrant.trace o)
              = Svelte.value w :: changes (Svelte.value w) (mutations_of cs))).
Proof.
  intros b cb w cl fuel Hwf key. split.
  - intros m. unfold Reentrant.call.
    cbn [Reentrant.action_of Reentrant.steps]. rewrite trace_after.
    unfold Reentrant.trace at 1. cbn [snd app Svelte.sub_key Svelte.sub_run
                                        Svelte.value Reentrant.document].
    eexists. reflexivity.
  - intros Hb cs cs' whole o Hk Hf. subst o.
    rewrite (call_all_passive b fuel whole Hb w cl Hf).
    unfold Reentrant.ending, Reentrant.trace. cbn [fst snd].
    set (w1 := fst (result (ThemeStore.subscribe cb w cl))).
    assert (Hwf1 : well_formed w1) by now apply (subscribe_well_formed cb w cl).
    assert (Hreg1 : registered key w1).
    { unfold registered. subst w1 key. simpl. rewrite map_app.
      apply in_or_app. right. now left. }
    assert (Hlt1 : key < Svelte.next_key w1) by (subst w1 key; simpl; lia).
    set (w2 := result (exec_all cs w1 cl)).
    assert (Hwf2 : well_formed w2) by now apply exec_all_well_formed.
    assert (Hreg2 : registered key w2) by now apply exec_all_registered.
    split; [reflexivity|]. split; [|split].
    + subst whole key. rewrite lifetime_events. fold w1. fold w2.
      cbn [deliveries]. rewrite Nat.eqb_refl, deliveries_app.
      rewrite (deliveries_while_registered _ cs w1 cl Hwf1 Hreg1 Hk).
      rewrite deliveries_after_removal.
      * now rewrite app_nil_r.
      * now apply unsubscribe_well_formed.
      * apply unsubscribe_removes.
      * apply (registered_allocated _ w2 Hwf2 Hreg2).
    + intros other Hother Hko.
      pose proof (registered_allocated other w Hwf Hother) as Hlt.
      rewrite (deliveries_while_registered other whole w cl Hwf Hother).
      * subst whole. cbn [mutations_of].
        rewrite !mutations_of_app. reflexivity.
      * subst whole. rewrite forallb_app in Hko.
        apply andb_true_iff in Hko. destruct Hko as [Hko1 Hko2].
        cbn [forallb keeps]. rewrite forallb_app. cbn [forallb keeps].
        rewrite Hko1, Hko2.
        replace (Nat.eqb key other) with false
          by (symmetry; apply Nat.eqb_neq; subst key; lia).
        reflexivity.
    + intros Hfresh Hav. rewrite forallb_app in Hav.
      apply andb_true_iff in Hav. destruct Hav as [Hav1 Hav2].
      assert (Hsole1 : sole_registration key cb w1)
        by now apply (subscribe_sole_registration cb w cl).
      subst whole key. rewrite lifetime_events. fold w1. fold w2.
      cbn [calls_of]. rewrite Nat.eqb_refl, calls_of_app.
      rewrite (calls_of_sole_registration _ cb cs w1 cl Hlt1 Hsole1 Hav1).
      rewrite (deliveries_while_registered _ cs w1 cl Hwf1 Hreg1 Hk).
      rewrite calls_of_fresh_callback; [now rewrite app_nil_r| |exact Hav2].
      apply unsubscribe_sole_registration.
      now apply exec_all_sole_registration.
Qed.

Lemma subscription_lifetime_witness :
  well_formed (one_subscriber LIGHT)
  /\ deliveries 1
       (Reentrant.trace
          (Reentrant.call_all Reentrant.observers 20
             (CSubscribe 9
                :: [CMutate MToggle; CMutate (MSet DARK); CMutate (MSet LIGHT)]
                ++ CUnsubscribe 1 :: [CMutate MToggle; CSubscribe 4])
             (Reentrant.at_rest (one_subscriber LIGHT) ["app"])))
     = [LIGHT; DARK; LIGHT].
Proof.
  split; [apply one_subscriber_well_formed|].
  pose proof (subscription_lifetime Reentrant.observers 9 (one_subscriber LIGHT)
                ["app"] 20 (one_subscriber_well_formed LIGHT)) as H.
  cbv zeta in H. destruct H as [_ H].
  specialize (H (fun _ _ => eq_refl)
                [CMutate MToggle; CMutate (MSet DARK); CMutate (MSet LIGHT)]
                [CMutate MToggle; CSubscribe 4] eq_refl).
  assert (Hf : Reentrant.enough (one_subscriber LIGHT)
                 (List.length
                    (CSubscribe 9
                       :: [CMutate MToggle; CMutate (MSet DARK); CMutate (MSet LIGHT)]
                       ++ CUnsubscribe (Svelte.next_key (one_subscriber LIGHT))
                       :: [CMutate MToggle; CSubscribe 4]))
               <= 20) by (vm_compute; lia).
  exact (proj1 (proj2 (H Hf))).
Defined.
